(** * firebase-rest-firestore: the value converter

    A shallow embedding of [src/utils/converter.ts] (and of the second
    version of the same module, kept in [Module Variant]) together with the
    properties of the conversion layer: type dispatch of the encoder, decoding
    by discriminator key, the document wrappers, and how they compose.

    JavaScript objects are finite maps from property names to values
    ([gmap string value]); exceptions are an explicit error result. *)

From Stdlib Require Import ZArith QArith Qround Floats Ascii DecimalString DecimalZ.
From stdpp Require Import gmap strings list fin_maps pretty.

#[local] Set Warnings "-register-all".
#[local] Open Scope Z_scope.

(** ** Results of fallible code *)

(** What a call can throw: the two built-in errors the converter can run
    into, and a failure raised by the client that resolves a reference. *)
Inductive exn : Type :=
| TypeError
| RangeError
| ClientError.

Inductive result (A : Type) : Type :=
| Ok (a : A)
| Throw (e : exn).
Arguments Ok {A} a.
Arguments Throw {A} e.

#[global] Instance result_bind : MBind result := λ A B k m,
  match m with
  | Ok a => k a
  | Throw e => Throw e
  end.

(** [if (c) t else e] for a test [c] that may throw. *)
Notation "'ifM' c 'then' t 'else' e" :=
  (mbind (λ b : bool, if b then t else e) c)
  (at level 10, c at level 100, t at level 200, e at level 200, only parsing).

(** [l.map(f)] where [f] may throw: elements are visited left to right. *)
Definition mapM {A B} (f : A → result B) : list A → result (list B) :=
  fix go l :=
    match l with
    | [] => Ok []
    | x :: r => w ← f x; ws ← go r; Ok (w :: ws)
    end.

(** [Object.entries(o).reduce((acc, [key, val]) => ({...acc, [key]: f(val)}), {})].
    A map keeps no insertion order: the properties are visited in the order
    of the map. Whether a property throws, and so whether the call throws,
    does not depend on the order; when several properties throw, the code
    raises the exception of the first in insertion order and this function
    that of the first in the order of the map. *)
Definition obj_mapM {A B} (f : A → result B) (o : gmap string A)
  : result (gmap string B) :=
  map_fold (λ key val acc, a ← acc; w ← f val; Ok (<[key := w]> a)) (Ok ∅) o.

(** ** JavaScript values *)

(** The client a [DocumentReference] is bound to. The class, of [../client],
    is not part of the sources at hand: what the encoder asks of it,
    [value.client.pathUtil.getParentReference], is taken as a parameter, a
    function from a path to a resource name that may throw. *)
Record Client : Type := { getParentReference : string → result string }.

(** The prototype of an object: an object literal, or an instance of one of
    the two wrapper classes of the second version of the module. *)
Inductive class : Type :=
| Plain
| LiteralDocumentReference
| LiteralGeoPointValue.

(** A number is an IEEE 754 binary64. The time value of a [Date] is a whole
    number of milliseconds, or [None] for an invalid date. An array is dense.
    An object [VObj] holds its own enumerable properties under string keys,
    and has no other property of its own or from its prototype that this
    module looks at: an object literal, parsed JSON. An object [VObjHidden]
    has besides its own enumerable properties [props] the properties [hidden]
    that [Object.keys], [Object.entries] and the spread do not list but the
    operator [in] and a property read do see: those it inherits through its
    prototype chain and its own non-enumerable ones. An own enumerable
    property shadows a hidden one of the same name. Every property is a data
    property, and an array, a date, a function and a document reference carry
    no property besides the built-in ones. *)
Inductive value : Type :=
| VUndefined
| VNull
| VBool (b : bool)
| VNum (x : float)
| VStr (s : string)
| VSymbol (description : string)
| VBigInt (n : Z)
| VFunction (source : string)
| VDate (tv : option Z)
| VDocumentReference (client : Client) (path : string)
| VArr (items : list value)
| VObj (cls : class) (props : gmap string value)
| VObjHidden (cls : class) (props hidden : gmap string value).

(** The object literal [{ key: v }]. *)
Definition obj1 (key : string) (v : value) : value := VObj Plain {[ key := v ]}.

Inductive jstype : Type :=
| TUndefined | TObject | TBoolean | TNumber | TString | TSymbol | TBigInt | TFunction.

Definition typeof (v : value) : jstype :=
  match v with
  | VUndefined => TUndefined
  | VNull => TObject
  | VBool _ => TBoolean
  | VNum _ => TNumber
  | VStr _ => TString
  | VSymbol _ => TSymbol
  | VBigInt _ => TBigInt
  | VFunction _ => TFunction
  | VDate _ | VDocumentReference _ _ | VArr _ | VObj _ _
  | VObjHidden _ _ _ => TObject
  end.

Definition is_number (v : value) : bool :=
  match v with VNum _ => true | _ => false end.

Definition is_string (v : value) : bool :=
  match v with VStr _ => true | _ => false end.

(** [typeof v === 'object'] *)
Definition is_typeof_object (v : value) : bool :=
  match typeof v with TObject => true | _ => false end.

(** [!!v] *)
Definition truthy (v : value) : bool :=
  match v with
  | VUndefined | VNull => false
  | VBool b => b
  | VNum x => negb (PrimFloat.eqb x 0 || PrimFloat.is_nan x)
  | VStr s => negb (String.eqb s "")
  | VBigInt n => negb (n =? 0)
  | _ => true
  end.

(** Values that can stand on the right of [in]. *)
Definition is_object (v : value) : bool :=
  match v with
  | VFunction _ | VDate _ | VDocumentReference _ _ | VArr _ | VObj _ _
  | VObjHidden _ _ _ => true
  | _ => false
  end.

(** Whether a map has a key. *)
Definition has_key (key : string) (o : gmap string value) : bool :=
  match o !! key with Some _ => true | None => false end.

(** [key in v] for an object [v] and the property names this module tests
    (the discriminator keys, [latitude], [longitude]): an object has the
    properties it lists and its hidden ones; none of the names is a property
    of an array, a date, a function or a document reference. *)
Definition in_object (key : string) (v : value) : bool :=
  match v with
  | VObj _ o => has_key key o
  | VObjHidden _ o h => has_key key o || has_key key h
  | _ => false
  end.

(** [key in v]: a [TypeError] when [v] is not an object. *)
Definition has_property (key : string) (v : value) : result bool :=
  if is_object v then Ok (in_object key v) else Throw TypeError.

(** [v.key] for the property names this module reads (the discriminator
    keys, [fields], [values], [latitude], [longitude]); of these only
    [values] exists on a prototype, as the method [Array.prototype.values]. *)
Definition get_prop (v : value) (key : string) : result value :=
  match v with
  | VUndefined | VNull => Throw TypeError
  | VObj _ o => Ok (default VUndefined (o !! key))
  | VObjHidden _ o h =>
      Ok (match o !! key with
          | Some x => x
          | None => default VUndefined (h !! key)
          end)
  | VArr _ =>
      if String.eqb key "values" then Ok (VFunction "function values() { [native code] }")
      else Ok VUndefined
  | _ => Ok VUndefined
  end.

(** [Object.keys(v).length] of an object [v]. The fields of a document
    reference (its client binding and path) are not data of this module and
    are not counted. *)
Definition Object_keys_length (v : value) : nat :=
  match v with
  | VObj _ o | VObjHidden _ o _ => size o
  | VArr l => length l
  | VStr s => String.length s
  | _ => 0%nat
  end.

(** ** Numbers *)

(** The real number a finite float stands for, as a rational. *)
Definition float_value (x : float) : option Q :=
  match Prim2SF x with
  | S754_zero _ => Some 0%Q
  | S754_finite s m e =>
      Some ((if s then -1 else 1) * inject_Z (Z.pos m) * Qpower 2 e)%Q
  | S754_infinity _ | S754_nan => None
  end.

Definition Qtruncate (q : Q) : Z :=
  if Qle_bool 0 q then Qfloor q else Qceiling q.

(** [Number.isInteger(x)]: [x] is finite and truncating its real value
    leaves it unchanged (ECMA-262, Number.isInteger). *)
Definition Number_isInteger (x : float) : bool :=
  match float_value x with
  | Some q => Qeq_bool (inject_Z (Qtruncate q)) q
  | None => false
  end.

(** ** Dates *)

(** Time values lie within 100,000,000 days of the epoch. *)
Definition time_in_range (t : Z) : Prop := -8640000000000000 ≤ t ≤ 8640000000000000.

(** ** Document identifiers *)

Fixpoint last_segment (acc : string) (s : string) : string :=
  match s with
  | EmptyString => acc
  | String c r =>
      if Ascii.eqb c "/"%char then last_segment EmptyString r
      else last_segment (acc +:+ String c EmptyString) r
  end.

(** Modelled from the spec: [getDocumentId] of [./utils/path] is not part of
    the sources at hand. Given a resource name it returns the final path
    segment: everything up to and including the last [/] is stripped. *)
Definition getDocumentId (name : string) : string := last_segment EmptyString name.

(** ** Wire documents *)

(** [FirestoreDocument] of [types.ts] *)
Record FirestoreDocument : Type := {
  doc_name : option string;
  doc_fields : gmap string value;
  doc_createTime : option string;
  doc_updateTime : option string;
}.

(** [FirestoreResponse] of [types.ts] *)
Record FirestoreResponse : Type := {
  name : string;
  fields : option (gmap string value);
  createTime : option string;
  updateTime : option string;
}.

(** ** Reading properties *)

(** [v.key] where the guards evaluated before it have established that [v]
    is an object, so that the read cannot throw. *)
Definition read (v : value) (key : string) : value :=
  match get_prop v key with
  | Ok x => x
  | Throw _ => VUndefined
  end.

(** [get_prop v key] followed by [k], written as a traversal of the
    properties of [v] so that a decoder that calls itself on what it finds
    below a property stays structurally recursive ([with_prop_get_prop]
    states the equality with [get_prop]). *)
Definition with_prop {R} (v : value) (key : string) (k : value → result R) : result R :=
  match v with
  | VUndefined | VNull => Throw TypeError
  | VObj _ o =>
      map_fold (λ key' x acc, if String.eqb key' key then k x else acc) (k VUndefined) o
  | VObjHidden _ o h =>
      map_fold (λ key' x acc, if String.eqb key' key then k x else acc)
        (map_fold (λ key' x acc, if String.eqb key' key then k x else acc)
           (k VUndefined) h)
        o
  | VArr _ =>
      if String.eqb key "values" then k (VFunction "function values() { [native code] }")
      else k VUndefined
  | _ => k VUndefined
  end.

(** [values.map(f)]: a [TypeError] when [values] is not an array (no value
    of the model other than an array has a callable [map]). *)
Definition Array_map (f : value → result value) (values : value) : result value :=
  match values with
  | VArr l => r ← mapM f l; Ok (VArr r)
  | _ => Throw TypeError
  end.

(** [Object.entries(fields).reduce((acc, [key, val]) => ({...acc, [key]: f(val)}), {})]
    for a truthy [fields]. The entries of an object are its properties, those
    of an array its elements under their indices; a number, a boolean and the
    like have none. Each entry of a non-empty string is a one-character
    string, on which the decoder [f] raises a [TypeError] at its first [in]. *)
Definition reduce_entries (f : value → result value) (fields : value) : result value :=
  match fields with
  | VUndefined | VNull => Throw TypeError
  | VObj _ o | VObjHidden _ o _ => r ← obj_mapM f o; Ok (VObj Plain r)
  | VArr l => r ← mapM f l; Ok (VObj Plain (list_to_map (imap (λ i w, (pretty i, w)) r)))
  | VStr s => if String.eqb s "" then Ok (VObj Plain ∅) else Throw TypeError
  | _ => Ok (VObj Plain ∅)
  end.

(** [values ?? []] *)
Definition or_empty_array (values : value) : value :=
  match values with
  | VUndefined | VNull => VArr []
  | _ => values
  end.

(** [(values ?? []).map(f)], by cases on [values]
    ([Array_map_or_empty_eq] relates it to [or_empty_array]). *)
Definition Array_map_or_empty (f : value → result value) (values : value)
  : result value :=
  match values with
  | VUndefined | VNull => Ok (VArr [])
  | _ => Array_map f values
  end.

(** Modelled from the spec: the class [LiteralGeoPointValue] of the second
    version of the module is not part of the sources at hand. It is a native
    geo-point handle wrapping the latitude/longitude pair of the wire value it
    is constructed from, held under [geoPointValue], where the encoder of that
    version reads it. *)
Definition new_LiteralGeoPointValue (firestoreValue : value) : value :=
  VObj LiteralGeoPointValue {[ "geoPointValue" := read firestoreValue "geoPointValue" ]}.

(** Modelled from the spec: the class [LiteralDocumentReference] of the second
    version of the module is not part of the sources at hand. It is a native
    reference handle wrapping the resource path of the wire value it is
    constructed from, held under [referenceValue]. *)
Definition new_LiteralDocumentReference (firestoreValue : value) : value :=
  VObj LiteralDocumentReference {[ "referenceValue" := read firestoreValue "referenceValue" ]}.

(** ** The runtime *)

(** The built-ins of the JavaScript runtime that the module calls and that
    are taken as given:
    - [Date_toISOString t], the ISO-8601 text of the time value [t];
    - [Date_parse s], the time value of [new Date(s)] for a string [s];
    - [ToNumber_host v], [Number(v)] for a string, a bigint or an object;
    - [Date_host v], the time value of [new Date(v)] for a number, a bigint
      or an object that is not a date. *)
Class Runtime : Type := {
  Date_toISOString : Z → string;
  Date_parse : string → option Z;
  ToNumber_host : value → result float;
  Date_host : value → result (option Z);
}.

Section Converter.

Context {runtime : Runtime}.

(** [value.toISOString()]: a [RangeError] on an invalid date. *)
Definition toISOString (tv : option Z) : result string :=
  match tv with
  | Some t => Ok (Date_toISOString t)
  | None => Throw RangeError
  end.

(** [Number(v)] *)
Definition Number_ (v : value) : result float :=
  match v with
  | VNum x => Ok x
  | VUndefined => Ok PrimFloat.nan
  | VNull => Ok 0%float
  | VBool b => Ok (if b then 1%float else 0%float)
  | VSymbol _ => Throw TypeError
  | _ => ToNumber_host v
  end.

(** [new Date(v)] *)
Definition new_Date (v : value) : result value :=
  match v with
  | VStr s => Ok (VDate (Date_parse s))
  | VDate tv => Ok (VDate tv)
  | VUndefined => Ok (VDate None)
  | VNull => Ok (VDate (Some 0))
  | VBool b => Ok (VDate (Some (if b then 1 else 0)))
  | VSymbol _ => Throw TypeError
  | _ => tv ← Date_host v; Ok (VDate tv)
  end.

(** *** [convertToFirestoreValue] of [converter.ts] *)

(** The test of lines 43-48: the exact shape of a document reference. *)
Definition reference_shape (unknown : value) : bool :=
  is_typeof_object unknown
  && truthy unknown && in_object "referenceValue" unknown
  && (Object_keys_length unknown =? 1)%nat
  && is_string (read unknown "referenceValue").

(** The test of lines 53-65: the exact shape of a geo point. *)
Definition geoPoint_shape (unknown : value) : bool :=
  is_typeof_object unknown
  && truthy unknown
  && in_object "geoPointValue" unknown
  && (Object_keys_length unknown =? 1)%nat
  && is_typeof_object (read unknown "geoPointValue")
  && truthy (read unknown "geoPointValue")
  && in_object "latitude" (read unknown "geoPointValue")
  && in_object "longitude" (read unknown "geoPointValue")
  && (Object_keys_length (read unknown "geoPointValue") =? 1)%nat
  && is_number (read (read unknown "geoPointValue") "latitude")
  && is_number (read (read unknown "geoPointValue") "longitude").

Fixpoint convertToFirestoreValue (v : value) : result value :=
  match v with
  | VDate tv =>
      iso ← toISOString tv;
      Ok (obj1 "timestampValue" (VStr iso))
  | VDocumentReference client path =>
      r ← getParentReference client path;
      Ok (obj1 "referenceValue" (VStr r))
  | VStr _ => Ok (obj1 "stringValue" v)
  | VNum x =>
      if Number_isInteger x then Ok (obj1 "integerValue" v)
      else Ok (obj1 "doubleValue" v)
  | VBool _ => Ok (obj1 "booleanValue" v)
  | VNull | VUndefined => Ok (obj1 "nullValue" VNull)
  | VArr items =>
      values ← mapM convertToFirestoreValue items;
      Ok (obj1 "arrayValue" (obj1 "values" (VArr values)))
  | VObj _ props | VObjHidden _ props _ =>
      if reference_shape v then
        Ok (obj1 "referenceValue" (read v "referenceValue"))
      else if geoPoint_shape v then
        Ok (obj1 "geoPointValue"
              (VObj Plain {[ "latitude" := read (read v "geoPointValue") "latitude";
                             "longitude" := read (read v "geoPointValue") "longitude" ]}))
      else
        fields ← obj_mapM convertToFirestoreValue props;
        Ok (obj1 "mapValue" (obj1 "fields" (VObj Plain fields)))
  (* the default, [String(value)]: the description of a symbol in
     [Symbol(...)], the decimal digits of a bigint, the source text of a
     function; it does not throw on a symbol *)
  | VSymbol d => Ok (obj1 "stringValue" (VStr ("Symbol(" +:+ d +:+ ")")))
  | VBigInt n => Ok (obj1 "stringValue" (VStr (pretty n)))
  | VFunction src => Ok (obj1 "stringValue" (VStr src))
  end.

(** *** [convertFromFirestoreValue] of [converter.ts] *)

Fixpoint convertFromFirestoreValue (firestoreValue : value) : result value :=
  ifM has_property "stringValue" firestoreValue then
    get_prop firestoreValue "stringValue"
  else ifM has_property "integerValue" firestoreValue then
    integerValue ← get_prop firestoreValue "integerValue";
    x ← Number_ integerValue; Ok (VNum x)
  else ifM has_property "doubleValue" firestoreValue then
    get_prop firestoreValue "doubleValue"
  else ifM has_property "booleanValue" firestoreValue then
    get_prop firestoreValue "booleanValue"
  else ifM has_property "nullValue" firestoreValue then
    Ok VNull
  else ifM has_property "timestampValue" firestoreValue then
    timestampValue ← get_prop firestoreValue "timestampValue";
    new_Date timestampValue
  else ifM has_property "geoPointValue" firestoreValue then
    Ok firestoreValue
  else ifM has_property "referenceValue" firestoreValue then
    Ok firestoreValue
  else
  (* lines 115-122: the [arrayValue] test, its branch and the final [return null] *)
  let arrayValue_or_null : result value :=
    ifM has_property "arrayValue" firestoreValue then
      with_prop firestoreValue "arrayValue" (λ arrayValue,
      with_prop arrayValue "values" (λ values,
        if truthy values then Array_map convertFromFirestoreValue values
        else Ok VNull))
    else Ok VNull in
  (* lines 107-114 *)
  ifM has_property "mapValue" firestoreValue then
    with_prop firestoreValue "mapValue" (λ mapValue,
    with_prop mapValue "fields" (λ fields,
      if truthy fields then reduce_entries convertFromFirestoreValue fields
      else arrayValue_or_null))
  else arrayValue_or_null.

(** *** The document wrappers of [converter.ts] *)

Definition convertToFirestoreDocument (data : gmap string value)
  : result FirestoreDocument :=
  fs ← obj_mapM convertToFirestoreValue data;
  Ok {| doc_name := None; doc_fields := fs;
        doc_createTime := None; doc_updateTime := None |}.

Definition convertFromFirestoreDocument (doc : FirestoreResponse)
  : result (gmap string value) :=
  match fields doc with
  | None => Ok {[ "id" := VStr (getDocumentId (name doc)) ]}
  | Some fs =>
      decoded ← obj_mapM convertFromFirestoreValue fs;
      Ok (<["id" := VStr (getDocumentId (name doc))]> decoded)
  end.

End Converter.

(** ** The second version of the module

    The second version of [converter.ts]. Its encoder tells the two handle
    classes by [instanceof] and has no shape test; its decoder differs at
    three places: a geo point and a reference are wrapped into handles, and an
    [arrayValue] without [values] decodes to the empty array. *)
Module Variant.
Section Converter.

Context {runtime : Runtime}.

(** [convertToFirestoreValue] of the second version (lines 16-56): the two
    handle classes are told by [instanceof], before the tests on [typeof],
    and an object is never inspected for a wire shape. *)
Fixpoint convertToFirestoreValue (v : value) : result value :=
  match v with
  | VDate tv =>
      iso ← toISOString tv;
      Ok (obj1 "timestampValue" (VStr iso))
  | VDocumentReference client path =>
      r ← getParentReference client path;
      Ok (obj1 "referenceValue" (VStr r))
  | VObj LiteralDocumentReference _ | VObjHidden LiteralDocumentReference _ _ =>
      Ok (obj1 "referenceValue" (read v "referenceValue"))
  | VObj LiteralGeoPointValue _ | VObjHidden LiteralGeoPointValue _ _ =>
      Ok (obj1 "geoPointValue" (read v "geoPointValue"))
  | VStr _ => Ok (obj1 "stringValue" v)
  | VNum x =>
      if Number_isInteger x then Ok (obj1 "integerValue" v)
      else Ok (obj1 "doubleValue" v)
  | VBool _ => Ok (obj1 "booleanValue" v)
  | VNull | VUndefined => Ok (obj1 "nullValue" VNull)
  | VArr items =>
      values ← mapM convertToFirestoreValue items;
      Ok (obj1 "arrayValue" (obj1 "values" (VArr values)))
  | VObj Plain props | VObjHidden Plain props _ =>
      fields ← obj_mapM convertToFirestoreValue props;
      Ok (obj1 "mapValue" (obj1 "fields" (VObj Plain fields)))
  (* the default, [String(value)] *)
  | VSymbol d => Ok (obj1 "stringValue" (VStr ("Symbol(" +:+ d +:+ ")")))
  | VBigInt n => Ok (obj1 "stringValue" (VStr (pretty n)))
  | VFunction src => Ok (obj1 "stringValue" (VStr src))
  end.

(** [convertToFirestoreDocument] of the second version (lines 102-114) *)
Definition convertToFirestoreDocument (data : gmap string value)
  : result FirestoreDocument :=
  fs ← obj_mapM convertToFirestoreValue data;
  Ok {| doc_name := None; doc_fields := fs;
        doc_createTime := None; doc_updateTime := None |}.

Fixpoint convertFromFirestoreValue (firestoreValue : value) : result value :=
  ifM has_property "stringValue" firestoreValue then
    get_prop firestoreValue "stringValue"
  else ifM has_property "integerValue" firestoreValue then
    integerValue ← get_prop firestoreValue "integerValue";
    x ← Number_ integerValue; Ok (VNum x)
  else ifM has_property "doubleValue" firestoreValue then
    get_prop firestoreValue "doubleValue"
  else ifM has_property "booleanValue" firestoreValue then
    get_prop firestoreValue "booleanValue"
  else ifM has_property "nullValue" firestoreValue then
    Ok VNull
  else ifM has_property "timestampValue" firestoreValue then
    timestampValue ← get_prop firestoreValue "timestampValue";
    new_Date timestampValue
  else ifM has_property "geoPointValue" firestoreValue then
    Ok (new_LiteralGeoPointValue firestoreValue)
  else ifM has_property "referenceValue" firestoreValue then
    Ok (new_LiteralDocumentReference firestoreValue)
  else
  (* lines 90-94: the [arrayValue] test, its branch and the final [return null] *)
  let arrayValue_or_null : result value :=
    ifM has_property "arrayValue" firestoreValue then
      with_prop firestoreValue "arrayValue" (λ arrayValue,
      with_prop arrayValue "values" (λ values,
        Array_map_or_empty convertFromFirestoreValue values))
    else Ok VNull in
  (* lines 82-89 *)
  ifM has_property "mapValue" firestoreValue then
    with_prop firestoreValue "mapValue" (λ mapValue,
    with_prop mapValue "fields" (λ fields,
      if truthy fields then reduce_entries convertFromFirestoreValue fields
      else arrayValue_or_null))
  else arrayValue_or_null.

Definition convertFromFirestoreDocument (doc : FirestoreResponse)
  : result (gmap string value) :=
  match fields doc with
  | None => Ok {[ "id" := VStr (getDocumentId (name doc)) ]}
  | Some fs =>
      decoded ← obj_mapM convertFromFirestoreValue fs;
      Ok (<["id" := VStr (getDocumentId (name doc))]> decoded)
  end.

End Converter.
End Variant.

(** ** Predicates of the specification *)

(** The discriminator keys of [FirestoreFieldValue] in [types.ts]. *)
Definition discriminators : list string :=
  ["stringValue"; "integerValue"; "doubleValue"; "booleanValue"; "nullValue";
   "timestampValue"; "geoPointValue"; "referenceValue"; "mapValue"; "arrayValue"].

(** How many discriminator keys are present in an object. *)
Definition discriminator_count (o : gmap string value) : nat :=
  length (filter (λ key, is_Some (o !! key)) discriminators).

(** A wire value with exactly one discriminator key, and so for the wire
    values held in the [fields] of its [mapValue] and in the [values] of its
    [arrayValue]. *)
Inductive single_discriminator : value → Prop :=
| sd_scalar c o :
    discriminator_count o = 1%nat →
    o !! "mapValue" = None →
    o !! "arrayValue" = None →
    single_discriminator (VObj c o)
| sd_mapValue c o c1 m c2 fs :
    discriminator_count o = 1%nat →
    o !! "mapValue" = Some (VObj c1 m) →
    m !! "fields" = Some (VObj c2 fs) →
    (∀ key x, fs !! key = Some x → single_discriminator x) →
    single_discriminator (VObj c o)
| sd_arrayValue c o c1 m l :
    discriminator_count o = 1%nat →
    o !! "arrayValue" = Some (VObj c1 m) →
    m !! "values" = Some (VArr l) →
    (∀ x, x ∈ l → single_discriminator x) →
    single_discriminator (VObj c o).

(** The native values of the round-trip property: strings, numbers, booleans,
    null, dates that hold an instant, arrays and plain mappings of such. *)
Inductive plain : value → Prop :=
| plain_string s : plain (VStr s)
| plain_number x : plain (VNum x)
| plain_boolean b : plain (VBool b)
| plain_null : plain VNull
| plain_date t : time_in_range t → plain (VDate (Some t))
| plain_array l : (∀ x, x ∈ l → plain x) → plain (VArr l)
| plain_mapping o : (∀ key x, o !! key = Some x → plain x) → plain (VObj Plain o).

(** The values on which the encoder does not throw: every date in them holds
    an instant and every document reference is resolved by its client. *)
Inductive encodable : value → Prop :=
| enc_undefined : encodable VUndefined
| enc_null : encodable VNull
| enc_bool b : encodable (VBool b)
| enc_num x : encodable (VNum x)
| enc_str s : encodable (VStr s)
| enc_symbol d : encodable (VSymbol d)
| enc_bigint n : encodable (VBigInt n)
| enc_function src : encodable (VFunction src)
| enc_date t : encodable (VDate (Some t))
| enc_reference client path r :
    getParentReference client path = Ok r →
    encodable (VDocumentReference client path)
| enc_array l : (∀ x, x ∈ l → encodable x) → encodable (VArr l)
| enc_object c o : (∀ key x, o !! key = Some x → encodable x) → encodable (VObj c o)
| enc_object_hidden c o h :
    (∀ key x, o !! key = Some x → encodable x) → encodable (VObjHidden c o h).

(** A value that is not an object with hidden properties. *)
Definition not_hidden (v : value) : Prop :=
  match v with
  | VObjHidden _ _ _ => False
  | _ => True
  end.

(** A value that is neither an array nor an object. *)
Definition is_leaf (v : value) : bool :=
  match v with
  | VArr _ | VObj _ _ | VObjHidden _ _ _ => false
  | _ => true
  end.

(** The values in which every object, at any depth, has only the properties
    it lists: what object literals and parsed JSON are made of. *)
Inductive own_only : value → Prop :=
| own_leaf v : is_leaf v = true → own_only v
| own_array l : (∀ x, x ∈ l → own_only x) → own_only (VArr l)
| own_object c o : (∀ key x, o !! key = Some x → own_only x) → own_only (VObj c o).

(** The closed union [FirestoreFieldValue] of [types.ts]. *)
Inductive FirestoreFieldValue : value → Prop :=
| ffv_string s : FirestoreFieldValue (obj1 "stringValue" (VStr s))
| ffv_integer x : FirestoreFieldValue (obj1 "integerValue" (VNum x))
| ffv_double x : FirestoreFieldValue (obj1 "doubleValue" (VNum x))
| ffv_boolean b : FirestoreFieldValue (obj1 "booleanValue" (VBool b))
| ffv_null : FirestoreFieldValue (obj1 "nullValue" VNull)
| ffv_timestamp s : FirestoreFieldValue (obj1 "timestampValue" (VStr s))
| ffv_geoPoint lat lon :
    FirestoreFieldValue
      (obj1 "geoPointValue"
         (VObj Plain {[ "latitude" := VNum lat; "longitude" := VNum lon ]}))
| ffv_reference s : FirestoreFieldValue (obj1 "referenceValue" (VStr s))
| ffv_map fs :
    (∀ key x, fs !! key = Some x → FirestoreFieldValue x) →
    FirestoreFieldValue (obj1 "mapValue" (obj1 "fields" (VObj Plain fs)))
| ffv_array l :
    (∀ x, x ∈ l → FirestoreFieldValue x) →
    FirestoreFieldValue (obj1 "arrayValue" (obj1 "values" (VArr l))).

(** What [obj_mapM] returns, property by property. *)
Definition fields_related {A B} (f : A → result B) (o : gmap string A)
    (r : gmap string B) : Prop :=
  ∀ key, match o !! key with
         | Some x => ∃ w, f x = Ok w ∧ r !! key = Some w
         | None => r !! key = None
         end.

(** Every property of [fs] is in [out], decoded. *)
Definition decoded_fields (decode : value → result value)
    (fs out : gmap string value) : Prop :=
  ∀ key w, fs !! key = Some w → ∃ v, decode w = Ok v ∧ out !! key = Some v.

(** Whether a string contains [/]. *)
Fixpoint has_slash (s : string) : bool :=
  match s with
  | EmptyString => false
  | String c r => Ascii.eqb c "/"%char || has_slash r
  end.

(** The size of a value, for induction over values. *)
Fixpoint vsize (v : value) : nat :=
  match v with
  | VArr l => S (foldr (λ x n, vsize x + n)%nat 0%nat l)
  | VObj _ o => S (map_fold (λ _ x n, vsize x + n)%nat 0%nat o)
  | VObjHidden _ o h =>
      S (map_fold (λ _ x n, vsize x + n)%nat 0%nat o
         + map_fold (λ _ x n, vsize x + n)%nat 0%nat h)
  | _ => 0%nat
  end.

(** ** A sample runtime

    A runtime that writes a time value as its number of milliseconds in
    decimal and reads it back, and has no conversion for anything else. It
    instantiates the statements below at concrete inputs. *)
Definition epoch_text (t : Z) : string := NilEmpty.string_of_int (Z.to_int t).

Definition epoch_parse (s : string) : option Z :=
  Z.of_int <$> NilEmpty.int_of_string s.

Definition epoch_runtime : Runtime := {|
  Date_toISOString := epoch_text;
  Date_parse := epoch_parse;
  ToNumber_host := λ _, Ok PrimFloat.nan;
  Date_host := λ _, Ok None;
|}.

(** [{a: [1, "b", null], at: new Date(0)}] *)
Definition sample_native : value :=
  VObj Plain {[ "a" := VArr [VNum 1%float; VStr "b"; VNull];
                "at" := VDate (Some 0) ]}.

(** [{geoPointValue: {latitude: 35.0, longitude: 139.0}}] *)
Definition geoPoint_literal : value :=
  obj1 "geoPointValue"
    (VObj Plain {[ "latitude" := VNum 35%float; "longitude" := VNum 139%float ]}).

(** [{geoPointValue: {latitude: 35.0, longitude: 139.0}, extra: 1}] *)
Definition geoPoint_literal_extra : value :=
  VObj Plain
    {[ "geoPointValue" :=
         VObj Plain {[ "latitude" := VNum 35%float; "longitude" := VNum 139%float ]};
       "extra" := VNum 1%float ]}.

(** [{name: "projects/p/databases/(default)/documents/col/doc1"}] *)
Definition doc1_without_fields : FirestoreResponse := {|
  name := "projects/p/databases/(default)/documents/col/doc1";
  fields := None; createTime := None; updateTime := None;
|}.

(** [{name: ".../col/doc1", fields: {n: {stringValue: "x"}}}] *)
Definition doc1_with_fields : FirestoreResponse := {|
  name := ".../col/doc1";
  fields := Some {[ "n" := obj1 "stringValue" (VStr "x") ]};
  createTime := None; updateTime := None;
|}.

(** [{name: ".../col/doc1", fields: {id: {integerValue: 7}}}] *)
Definition doc1_with_id_field : FirestoreResponse := {|
  name := ".../col/doc1";
  fields := Some {[ "id" := obj1 "integerValue" (VNum 7%float) ]};
  createTime := None; updateTime := None;
|}.

(** ** Wire values that survive decoding and encoding *)

(** A [fields] mapping whose only field is a string named [referenceValue]:
    decoded, it has the exact shape of a reference literal. *)
Definition reference_named_field (fs : gmap string value) : Prop :=
  ∃ s, fs = {[ "referenceValue" := obj1 "stringValue" (VStr s) ]}.

Section CanonicalWire.

Context {runtime : Runtime}.

(** The wire values in the form the encoder of [converter.ts] writes them
    for values made of object literals: an [integerValue] holds an integer
    and a [doubleValue] does not, a [timestampValue] is the ISO text of an
    instant, there is no [geoPointValue], and the [fields] of a [mapValue]
    are not a lone string named [referenceValue]. *)
Inductive canonical_wire : value → Prop :=
| cw_string s : canonical_wire (obj1 "stringValue" (VStr s))
| cw_integer x :
    Number_isInteger x = true → canonical_wire (obj1 "integerValue" (VNum x))
| cw_double x :
    Number_isInteger x = false → canonical_wire (obj1 "doubleValue" (VNum x))
| cw_boolean b : canonical_wire (obj1 "booleanValue" (VBool b))
| cw_null : canonical_wire (obj1 "nullValue" VNull)
| cw_timestamp t :
    time_in_range t →
    canonical_wire (obj1 "timestampValue" (VStr (Date_toISOString t)))
| cw_reference s : canonical_wire (obj1 "referenceValue" (VStr s))
| cw_map fs :
    (∀ key x, fs !! key = Some x → canonical_wire x) →
    ¬ reference_named_field fs →
    canonical_wire (obj1 "mapValue" (obj1 "fields" (VObj Plain fs)))
| cw_array l :
    (∀ x, x ∈ l → canonical_wire x) →
    canonical_wire (obj1 "arrayValue" (obj1 "values" (VArr l))).

End CanonicalWire.

(** The wire value the encoder writes for a number. *)
Definition encoded_number (x : float) : value :=
  obj1 (if Number_isInteger x then "integerValue" else "doubleValue") (VNum x).

(** [{mapValue: {fields: {n: {integerValue: 1}, tags: {arrayValue: {values:
    [{stringValue: "a"}, {nullValue: null}]}}}}}] *)
Definition sample_wire : value :=
  obj1 "mapValue" (obj1 "fields" (VObj Plain
    {[ "n" := obj1 "integerValue" (VNum 1%float);
       "tags" := obj1 "arrayValue" (obj1 "values"
                   (VArr [obj1 "stringValue" (VStr "a"); obj1 "nullValue" VNull])) ]})).

(** * Properties *)

(** ** The combinators *)

Lemma mapM_Forall2 {A B} (f : A → result B) (l : list A) (r : list B) :
  mapM f l = Ok r ↔ Forall2 (λ x w, f x = Ok w) l r.
Proof.
  revert r. induction l as [|x l IH]; intros r; simpl.
  - split.
    + intros [= <-]. constructor.
    + intros H. inversion H. reflexivity.
  - split.
    + destruct (f x) as [w|e] eqn:Hx; simpl; [|discriminate].
      destruct (mapM f l) as [ws|e] eqn:Hl; simpl; [|discriminate].
      intros [= <-]. constructor; [exact Hx | by apply IH].
    + intros H. inversion H as [|? w ? ws Hx Hl]; subst.
      rewrite Hx. simpl. apply IH in Hl. rewrite Hl. reflexivity.
Qed.

Lemma mapM_total {A B} (f : A → result B) (l : list A) :
  (∀ x, x ∈ l → ∃ w, f x = Ok w) → ∃ r, mapM f l = Ok r.
Proof.
  induction l as [|x l IH]; intros H; simpl.
  - by eexists.
  - destruct (H x) as [w Hw]; [left|].
    destruct IH as [ws Hws]; [intros y Hy; apply H; by right|].
    rewrite Hw. simpl. rewrite Hws. by eexists.
Qed.

Lemma obj_mapM_related {A B} (f : A → result B) (o : gmap string A) r :
  obj_mapM f o = Ok r → fields_related f o r.
Proof.
  unfold obj_mapM. revert r.
  apply (map_fold_weak_ind (λ acc m, ∀ r, acc = Ok r → fields_related f m r)).
  - intros r [= <-] key. by rewrite !lookup_empty.
  - intros i x m acc Hi IH r.
    destruct acc as [a|e]; simpl; [|discriminate].
    destruct (f x) as [w|e] eqn:Hx; simpl; [|discriminate].
    intros [= <-] key. specialize (IH a eq_refl key).
    destruct (decide (i = key)) as [->|Hne].
    + rewrite !lookup_insert_eq. eauto.
    + rewrite !lookup_insert_ne by done. exact IH.
Qed.

Lemma obj_mapM_total {A B} (f : A → result B) (o : gmap string A) :
  (∀ key x, o !! key = Some x → ∃ w, f x = Ok w) → ∃ r, obj_mapM f o = Ok r.
Proof.
  unfold obj_mapM.
  apply (map_fold_weak_ind (λ acc m,
    (∀ key x, m !! key = Some x → ∃ w, f x = Ok w) → ∃ r, acc = Ok r)).
  - intros _. by eexists.
  - intros i x m acc Hi IH H.
    destruct IH as [a ->].
    { intros key y Hy. apply (H key). rewrite lookup_insert_ne; [done|].
      intros ->. congruence. }
    destruct (H i x) as [w Hw]; [apply lookup_insert_eq|].
    simpl. rewrite Hw. by eexists.
Qed.

Lemma fields_related_dom {A B} (f : A → result B) (o : gmap string A) r :
  fields_related f o r → dom r = dom o.
Proof.
  intros H. apply set_eq. intros key. rewrite !elem_of_dom.
  specialize (H key). destruct (o !! key) as [x|].
  - destruct H as (w & _ & ->). split; eauto.
  - rewrite H. split; intros [? ?]; discriminate.
Qed.

(** Mapping [g] over the result of mapping [f] gives the object back when
    [g] undoes [f] on every property. *)
Lemma obj_mapM_inverse {A B} (f : A → result B) (g : B → result A)
    (o : gmap string A) r :
  obj_mapM f o = Ok r →
  (∀ key x w, o !! key = Some x → f x = Ok w → g w = Ok x) →
  obj_mapM g r = Ok o.
Proof.
  intros Hr Hinv. apply obj_mapM_related in Hr.
  destruct (obj_mapM_total g r) as [o' Ho'].
  { intros key w Hw. specialize (Hr key). destruct (o !! key) as [x|] eqn:Hx.
    - destruct Hr as (w' & Hf & Hw'). exists x. apply (Hinv key); congruence.
    - congruence. }
  rewrite Ho'. f_equal. apply obj_mapM_related in Ho'.
  apply map_eq. intros key. specialize (Hr key). specialize (Ho' key).
  destruct (o !! key) as [x|] eqn:Hx.
  - destruct Hr as (w & Hf & Hw). rewrite Hw in Ho'.
    destruct Ho' as (x' & Hg & ->). rewrite (Hinv key x w Hx Hf) in Hg. congruence.
  - rewrite Hr in Ho'. exact Ho'.
Qed.

Lemma mapM_inverse {A B} (f : A → result B) (g : B → result A)
    (l : list A) r :
  mapM f l = Ok r →
  (∀ x w, x ∈ l → f x = Ok w → g w = Ok x) →
  mapM g r = Ok l.
Proof.
  rewrite !mapM_Forall2. intros H. induction H as [|x w l r Hx _ IH]; intros Hinv.
  - constructor.
  - constructor.
    + apply Hinv; [left | exact Hx].
    + apply IH. intros y v Hy. apply Hinv. by right.
Qed.

Lemma fold_find {A R} (key : string) (k : A → R) (b : R) (o : gmap string A) :
  map_fold (λ key' x acc, if String.eqb key' key then k x else acc) b o
  = match o !! key with Some x => k x | None => b end.
Proof.
  apply (map_fold_weak_ind (λ acc m,
    acc = match m !! key with Some x => k x | None => b end)).
  - by rewrite lookup_empty.
  - intros i x m acc Hi ->.
    destruct (String.eqb_spec i key) as [->|Hne].
    + by rewrite lookup_insert_eq.
    + by rewrite lookup_insert_ne.
Qed.

(** Reading a property by traversal is reading it by lookup. *)
Lemma with_prop_get_prop {R} (v : value) (key : string) (k : value → result R) :
  with_prop v key k = get_prop v key ≫= k.
Proof.
  destruct v as [| | | | | | | | | | |c o|c o h]; try reflexivity.
  - simpl. destruct (String.eqb key "values"); reflexivity.
  - cbn [with_prop get_prop]. rewrite fold_find. by destruct (o !! key).
  - cbn [with_prop get_prop]. rewrite !fold_find.
    destruct (o !! key); [reflexivity|]. by destruct (h !! key).
Qed.

Lemma Array_map_or_empty_eq (f : value → result value) (values : value) :
  Array_map_or_empty f values = Array_map f (or_empty_array values).
Proof. destruct values; reflexivity. Qed.

(** ** Objects with one property *)

Lemma size_one_singleton {A} (o : gmap string A) key x :
  o !! key = Some x → size o = 1%nat → o = {[ key := x ]}.
Proof.
  intros Hx Hsz.
  assert (delete key o = ∅) as Hd.
  { apply map_size_empty_inv. rewrite map_size_delete_Some by eauto. lia. }
  rewrite <- (insert_id o key x Hx), <- insert_delete_eq, Hd. reflexivity.
Qed.

Lemma discriminator_count_obj1 key (x : value) :
  key ∈ discriminators → discriminator_count {[ key := x ]} = 1%nat.
Proof.
  unfold discriminators. rewrite !elem_of_cons, elem_of_nil.
  intros Hk. repeat (destruct Hk as [->|Hk]; [vm_compute; reflexivity|]).
  destruct Hk.
Qed.

Lemma single_discriminator_scalar key x :
  key ∈ discriminators → key ≠ "mapValue" → key ≠ "arrayValue" →
  single_discriminator (obj1 key x).
Proof.
  intros Hk Hm Ha. apply sd_scalar.
  - by apply discriminator_count_obj1.
  - by apply lookup_singleton_ne.
  - by apply lookup_singleton_ne.
Qed.

(** ** Induction over values *)

Lemma vsize_elem (l : list value) x : x ∈ l → (vsize x < vsize (VArr l))%nat.
Proof.
  cbn [vsize]. induction 1 as [x l|x y l _ IH]; cbn [foldr]; lia.
Qed.

Lemma vsize_fold_lookup (o : gmap string value) key x :
  o !! key = Some x →
  (vsize x ≤ map_fold (λ _ y n, vsize y + n)%nat 0%nat o)%nat.
Proof.
  intros Hx. rewrite (map_fold_delete_L _ _ key x o); [lia| |exact Hx].
  intros. lia.
Qed.

Lemma vsize_lookup c (o : gmap string value) key x :
  o !! key = Some x → (vsize x < vsize (VObj c o))%nat.
Proof.
  intros Hx. cbn [vsize]. pose proof (vsize_fold_lookup o key x Hx). lia.
Qed.

Lemma vsize_lookup_props c (o h : gmap string value) key x :
  o !! key = Some x → (vsize x < vsize (VObjHidden c o h))%nat.
Proof.
  intros Hx. cbn [vsize]. pose proof (vsize_fold_lookup o key x Hx). lia.
Qed.

Lemma vsize_lookup_hidden c (o h : gmap string value) key x :
  h !! key = Some x → (vsize x < vsize (VObjHidden c o h))%nat.
Proof.
  intros Hx. cbn [vsize]. pose proof (vsize_fold_lookup h key x Hx). lia.
Qed.

Lemma value_ind_nested (P : value → Prop) :
  P VUndefined → P VNull → (∀ b, P (VBool b)) → (∀ x, P (VNum x)) →
  (∀ s, P (VStr s)) → (∀ d, P (VSymbol d)) → (∀ n, P (VBigInt n)) →
  (∀ src, P (VFunction src)) → (∀ tv, P (VDate tv)) →
  (∀ client path, P (VDocumentReference client path)) →
  (∀ l, (∀ x, x ∈ l → P x) → P (VArr l)) →
  (∀ c o, (∀ key x, o !! key = Some x → P x) → P (VObj c o)) →
  (∀ c o h, (∀ key x, o !! key = Some x → P x) →
            (∀ key x, h !! key = Some x → P x) → P (VObjHidden c o h)) →
  ∀ v, P v.
Proof.
  intros ? ? ? ? ? ? ? ? ? ? Harr Hobj Hhid v.
  remember (vsize v) as n eqn:Hn. revert v Hn.
  induction n as [n IH] using lt_wf_ind. intros v ->.
  destruct v; auto.
  - apply Harr. intros x Hx. eapply IH; [|reflexivity]. by apply vsize_elem.
  - apply Hobj. intros key x Hx. eapply IH; [|reflexivity]. by eapply vsize_lookup.
  - apply Hhid; intros key x Hx; (eapply IH; [|reflexivity]).
    + by eapply vsize_lookup_props.
    + by eapply vsize_lookup_hidden.
Qed.

(** ** Numbers *)

Lemma Qtruncate_integral (q : Q) :
  Qeq_bool (inject_Z (Qtruncate q)) q = true ↔ ∃ z : Z, (q == inject_Z z)%Q.
Proof.
  rewrite Qeq_bool_iff. split.
  - intros Hq. exists (Qtruncate q). by symmetry.
  - intros [z Hz]. unfold Qtruncate.
    rewrite (Qfloor_comp _ _ Hz), (Qceiling_comp _ _ Hz), Qfloor_Z, Qceiling_Z.
    destruct (Qle_bool 0 q); by symmetry.
Qed.

(** [Number.isInteger] holds of the floats whose real value is an integer. *)
Lemma Number_isInteger_spec (x : float) :
  Number_isInteger x = true ↔
  ∃ q, float_value x = Some q ∧ ∃ z : Z, (q == inject_Z z)%Q.
Proof.
  unfold Number_isInteger. destruct (float_value x) as [q|].
  - rewrite Qtruncate_integral. split.
    + intros Hz. eauto.
    + intros (q' & [= <-] & Hz). exact Hz.
  - split; [discriminate|]. intros (q & [=] & _).
Qed.

(** ** The sample runtime *)

Lemma epoch_parse_text (t : Z) : epoch_parse (epoch_text t) = Some t.
Proof.
  unfold epoch_parse, epoch_text. rewrite NilEmpty.isi. cbn.
  by rewrite DecimalZ.of_to.
Qed.

Section Properties.

Context {runtime : Runtime}.

(** ** The decoder, by the properties of its argument *)

Lemma has_property_object key c o :
  has_property key (VObj c o)
  = Ok (match o !! key with Some _ => true | None => false end).
Proof. reflexivity. Qed.

(** [convertFromFirestoreValue] on an object, with every property read
    written as a lookup: the cascade of lines 91-122 of [converter.ts]. *)
Lemma decode_object c o :
  convertFromFirestoreValue (VObj c o) =
  match o !! "stringValue" with Some x => Ok x | None =>
  match o !! "integerValue" with Some x => n ← Number_ x; Ok (VNum n) | None =>
  match o !! "doubleValue" with Some x => Ok x | None =>
  match o !! "booleanValue" with Some x => Ok x | None =>
  match o !! "nullValue" with Some _ => Ok VNull | None =>
  match o !! "timestampValue" with Some x => new_Date x | None =>
  match o !! "geoPointValue" with Some _ => Ok (VObj c o) | None =>
  match o !! "referenceValue" with Some _ => Ok (VObj c o) | None =>
  let arrayValue_or_null :=
    match o !! "arrayValue" with
    | Some arrayValue =>
        values ← get_prop arrayValue "values";
        if truthy values then Array_map convertFromFirestoreValue values
        else Ok VNull
    | None => Ok VNull
    end in
  match o !! "mapValue" with
  | Some mapValue =>
      fields ← get_prop mapValue "fields";
      if truthy fields then reduce_entries convertFromFirestoreValue fields
      else arrayValue_or_null
  | None => arrayValue_or_null
  end end end end end end end end end.
Proof.
  cbn [convertFromFirestoreValue].
  rewrite !has_property_object. cbn [mbind result_bind get_prop].
  rewrite !with_prop_get_prop. cbn [mbind result_bind get_prop].
  repeat (destruct (o !! _); [reflexivity|]); cbn [default].
  destruct (o !! "arrayValue") as [av|]; destruct (o !! "mapValue") as [mv|];
    cbn [default]; rewrite ?with_prop_get_prop; reflexivity.
Qed.

(** The same for the second version: lines 66-94. *)
Lemma Variant_decode_object c o :
  Variant.convertFromFirestoreValue (VObj c o) =
  match o !! "stringValue" with Some x => Ok x | None =>
  match o !! "integerValue" with Some x => n ← Number_ x; Ok (VNum n) | None =>
  match o !! "doubleValue" with Some x => Ok x | None =>
  match o !! "booleanValue" with Some x => Ok x | None =>
  match o !! "nullValue" with Some _ => Ok VNull | None =>
  match o !! "timestampValue" with Some x => new_Date x | None =>
  match o !! "geoPointValue" with
  | Some _ => Ok (new_LiteralGeoPointValue (VObj c o)) | None =>
  match o !! "referenceValue" with
  | Some _ => Ok (new_LiteralDocumentReference (VObj c o)) | None =>
  let arrayValue_or_null :=
    match o !! "arrayValue" with
    | Some arrayValue =>
        values ← get_prop arrayValue "values";
        Array_map Variant.convertFromFirestoreValue (or_empty_array values)
    | None => Ok VNull
    end in
  match o !! "mapValue" with
  | Some mapValue =>
      fields ← get_prop mapValue "fields";
      if truthy fields
      then reduce_entries Variant.convertFromFirestoreValue fields
      else arrayValue_or_null
  | None => arrayValue_or_null
  end end end end end end end end end.
Proof.
  cbn [Variant.convertFromFirestoreValue].
  rewrite !has_property_object. cbn [mbind result_bind get_prop].
  rewrite !with_prop_get_prop. cbn [mbind result_bind get_prop].
  repeat (destruct (o !! _); [reflexivity|]); cbn [default].
  destruct (o !! "arrayValue") as [av|]; destruct (o !! "mapValue") as [mv|];
    cbn [default from_option id]; rewrite ?with_prop_get_prop; try reflexivity.
  - destruct (get_prop mv "fields") as [fs|e]; cbn [mbind result_bind]; [|reflexivity].
    destruct (truthy fs); [reflexivity|].
    destruct (get_prop av "values"); cbn [mbind result_bind]; [|reflexivity].
    apply Array_map_or_empty_eq.
  - destruct (get_prop av "values"); cbn [mbind result_bind]; [|reflexivity].
    apply Array_map_or_empty_eq.
Qed.

(** [in] raises on anything that is not an object. *)
Lemma decode_non_object v :
  is_object v = false → convertFromFirestoreValue v = Throw TypeError.
Proof. destruct v; try discriminate; reflexivity. Qed.

Lemma decode_scalar key x :
  key ∈ ["stringValue"; "doubleValue"; "booleanValue"] →
  convertFromFirestoreValue (obj1 key x) = Ok x.
Proof.
  rewrite !elem_of_cons, elem_of_nil. unfold obj1.
  intros [->|[->|[->|[]]]]; by rewrite decode_object.
Qed.

Lemma decode_integerValue x :
  convertFromFirestoreValue (obj1 "integerValue" (VNum x)) = Ok (VNum x).
Proof. unfold obj1. by rewrite decode_object. Qed.

Lemma decode_nullValue x :
  convertFromFirestoreValue (obj1 "nullValue" x) = Ok VNull.
Proof. unfold obj1. by rewrite decode_object. Qed.

Lemma decode_timestampValue s :
  convertFromFirestoreValue (obj1 "timestampValue" (VStr s))
  = Ok (VDate (Date_parse s)).
Proof. unfold obj1. by rewrite decode_object. Qed.

Lemma decode_referenceValue x :
  convertFromFirestoreValue (obj1 "referenceValue" x)
  = Ok (obj1 "referenceValue" x).
Proof. unfold obj1. by rewrite decode_object. Qed.

Lemma decode_geoPointValue x :
  convertFromFirestoreValue (obj1 "geoPointValue" x)
  = Ok (obj1 "geoPointValue" x).
Proof. unfold obj1. by rewrite decode_object. Qed.

Lemma decode_arrayValue ws :
  convertFromFirestoreValue (obj1 "arrayValue" (obj1 "values" (VArr ws)))
  = r ← mapM convertFromFirestoreValue ws; Ok (VArr r).
Proof. unfold obj1. by rewrite decode_object. Qed.

Lemma decode_mapValue fs :
  convertFromFirestoreValue (obj1 "mapValue" (obj1 "fields" (VObj Plain fs)))
  = r ← obj_mapM convertFromFirestoreValue fs; Ok (VObj Plain r).
Proof. unfold obj1. by rewrite decode_object. Qed.

(** ** The shape tests of the encoder *)

(** The geo-point test asks its payload for both [latitude] and [longitude]
    and for exactly one key: an object passes it only when its payload has
    hidden properties and does not list both coordinates. *)
Lemma geoPoint_shape_hidden v :
  geoPoint_shape v = true →
  ∃ c g h, read v "geoPointValue" = VObjHidden c g h
           ∧ size g = 1%nat
           ∧ (g !! "latitude" = None ∨ g !! "longitude" = None).
Proof.
  unfold geoPoint_shape.
  destruct (read v "geoPointValue") as [| | | | | | | | | | |c g|c g h] eqn:Hgp;
    cbn [in_object]; rewrite ?andb_false_r; try discriminate.
  - unfold has_key.
    destruct (g !! "latitude") as [a|] eqn:Ha; rewrite ?andb_false_r; [|discriminate].
    destruct (g !! "longitude") as [b|] eqn:Hb; rewrite ?andb_false_r; [|discriminate].
    cbn [Object_keys_length].
    destruct (Nat.eqb_spec (size g) 1) as [Hsz|]; rewrite ?andb_false_r; [|discriminate].
    rewrite (size_one_singleton g _ _ Ha Hsz) in Hb.
    rewrite lookup_singleton_ne in Hb; discriminate.
  - intros Hshape. exists c, g, h. split; [reflexivity|].
    cbn [Object_keys_length] in Hshape.
    destruct (Nat.eqb_spec (size g) 1) as [Hsz|];
      rewrite ?andb_false_r in Hshape; [|discriminate].
    split; [exact Hsz|].
    destruct (g !! "latitude") as [a|] eqn:Ha; [|by left].
    destruct (g !! "longitude") as [b|] eqn:Hb; [|by right].
    exfalso. rewrite (size_one_singleton g _ _ Ha Hsz) in Hb.
    rewrite lookup_singleton_ne in Hb; discriminate.
Qed.

(** No object whose payload has only the properties it lists passes it. *)
Lemma geoPoint_shape_own v :
  not_hidden (read v "geoPointValue") → geoPoint_shape v = false.
Proof.
  intros Hown. destruct (geoPoint_shape v) eqn:Hshape; [|reflexivity].
  apply geoPoint_shape_hidden in Hshape as (c & g & h & Hgp & _ & _).
  rewrite Hgp in Hown. destruct Hown.
Qed.

(** An object that passes it has two numbers for coordinates. *)
Lemma geoPoint_shape_numbers v :
  geoPoint_shape v = true →
  ∃ lat lon, read (read v "geoPointValue") "latitude" = VNum lat
             ∧ read (read v "geoPointValue") "longitude" = VNum lon.
Proof.
  unfold geoPoint_shape. rewrite !andb_true_iff. intros [[_ Hlat] Hlon].
  destruct (read (read v "geoPointValue") "latitude"); try discriminate.
  destruct (read (read v "geoPointValue") "longitude"); try discriminate.
  by eexists _, _.
Qed.

(** An object that passes the reference test has a string for
    [referenceValue]. *)
Lemma reference_shape_string v :
  reference_shape v = true → ∃ s, read v "referenceValue" = VStr s.
Proof.
  unfold reference_shape. rewrite !andb_true_iff. intros [_ Hs].
  destruct (read v "referenceValue"); try discriminate. by eexists.
Qed.

Lemma plain_not_hidden v : plain v → not_hidden v.
Proof. by destruct 1. Qed.

Lemma own_only_not_hidden v : own_only v → not_hidden v.
Proof. destruct 1 as [v Hv| |]; [by destruct v | done | done]. Qed.

Lemma not_hidden_payload c (o : gmap string value) key :
  (∀ x, o !! key = Some x → not_hidden x) → not_hidden (read (VObj c o) key).
Proof.
  intros Ho. unfold read. cbn [get_prop].
  destruct (o !! key) as [x|] eqn:Hx; cbn; [by apply Ho | exact I].
Qed.

Lemma reference_shape_inv c o :
  reference_shape (VObj c o) = true → ∃ s, o = {[ "referenceValue" := VStr s ]}.
Proof.
  unfold reference_shape.
  cbn [is_typeof_object typeof truthy in_object Object_keys_length read get_prop andb].
  unfold has_key.
  destruct (o !! "referenceValue") as [x|] eqn:Hx; [|discriminate].
  cbn [default]. destruct (Nat.eqb_spec (size o) 1) as [Hsz|]; [|discriminate].
  destruct x; try discriminate. intros _. eexists. by apply size_one_singleton.
Qed.

(** ** The encoder *)

(** C5: a number is encoded as [integerValue] exactly when it is
    mathematically an integer ([Number.isInteger], which holds of the
    floats whose real value is an integer) and as [doubleValue] otherwise;
    5 and 5.0, the same number, give [{integerValue: 5}] and 5.5 gives
    [{doubleValue: 5.5}]. *)
Theorem encoder_integer_double_split :
  (∀ x, convertToFirestoreValue (VNum x)
        = Ok (obj1 (if Number_isInteger x then "integerValue" else "doubleValue")
                (VNum x)))
  ∧ (∀ x, Number_isInteger x = true
          ↔ ∃ q, float_value x = Some q ∧ ∃ z : Z, (q == inject_Z z)%Q)
  ∧ convertToFirestoreValue (VNum 5%float) = Ok (obj1 "integerValue" (VNum 5%float))
  ∧ convertToFirestoreValue (VNum 5.5%float) = Ok (obj1 "doubleValue" (VNum 5.5%float))
  ∧ convertToFirestoreValue (VNum 5.0%float) = Ok (obj1 "integerValue" (VNum 5%float)).
Proof.
  split; [|split; [|split; [|split]]].
  - intros x. cbn [convertToFirestoreValue]. by destruct (Number_isInteger x).
  - apply Number_isInteger_spec.
  - vm_compute. reflexivity.
  - vm_compute. reflexivity.
  - vm_compute. reflexivity.
Qed.

(** C6: [null] and [undefined] are both encoded as [{nullValue: null}]. *)
Theorem encoder_null_undefined_collapse :
  convertToFirestoreValue VNull = Ok (obj1 "nullValue" VNull)
  ∧ convertToFirestoreValue VUndefined = Ok (obj1 "nullValue" VNull).
Proof. split; reflexivity. Qed.

(** C1: the geo-point literal [{geoPointValue: {latitude: 35.0, longitude:
    139.0}}] is not passed through as a [geoPointValue]: the shape test of
    lines 53-65 asks its payload for exactly one key, so the literal is
    encoded as a generic [mapValue], as is the same literal with an extra
    top-level key. *)
Theorem geoPoint_literal_encoded_as_mapValue :
  convertToFirestoreValue geoPoint_literal
  = Ok (obj1 "mapValue" (obj1 "fields" (VObj Plain
      {[ "geoPointValue" :=
           obj1 "mapValue" (obj1 "fields" (VObj Plain
             {[ "latitude" := obj1 "integerValue" (VNum 35%float);
                "longitude" := obj1 "integerValue" (VNum 139%float) ]})) ]})))
  ∧ convertToFirestoreValue geoPoint_literal_extra
    = Ok (obj1 "mapValue" (obj1 "fields" (VObj Plain
        {[ "geoPointValue" :=
             obj1 "mapValue" (obj1 "fields" (VObj Plain
               {[ "latitude" := obj1 "integerValue" (VNum 35%float);
                  "longitude" := obj1 "integerValue" (VNum 139%float) ]}));
           "extra" := obj1 "integerValue" (VNum 1%float) ]}))).
Proof. split; vm_compute; reflexivity. Qed.

(** What the encoder returns has one discriminator key at every level. *)
Lemma encode_single_discriminator v :
  ∀ w, convertToFirestoreValue v = Ok w → single_discriminator w.
Proof.
  induction v as [| |b|x|s|d|n|src|tv|client path|l IH|c o IH|c o h IH _]
    using value_ind_nested; intros w; cbn [convertToFirestoreValue].
  all: try (intros [= <-]; apply single_discriminator_scalar; [set_solver|done|done]).
  - destruct (Number_isInteger x); intros [= <-];
      (apply single_discriminator_scalar; [set_solver|done|done]).
  - destruct tv as [t|]; cbn; [|discriminate].
    intros [= <-]. apply single_discriminator_scalar; [set_solver|done|done].
  - destruct (getParentReference client path); cbn; [|discriminate].
    intros [= <-]. apply single_discriminator_scalar; [set_solver|done|done].
  - fold (mapM convertToFirestoreValue).
    destruct (mapM convertToFirestoreValue l) as [ws|e] eqn:Hws; cbn; [|discriminate].
    intros [= <-]. eapply sd_arrayValue.
    + by apply discriminator_count_obj1; set_solver.
    + apply lookup_singleton_eq.
    + apply lookup_singleton_eq.
    + apply mapM_Forall2 in Hws. intros w Hw.
      destruct (proj1 (list_elem_of_lookup ws w) Hw) as [i Hi].
      destruct (Forall2_lookup_r _ _ _ _ _ Hws Hi) as (x & Hx & Hxw).
      eapply IH; [|exact Hxw]. eapply list_elem_of_lookup_2; eauto.
  - destruct (reference_shape (VObj c o)).
    { intros [= <-]. apply single_discriminator_scalar; [set_solver|done|done]. }
    destruct (geoPoint_shape (VObj c o)).
    { intros [= <-]. apply single_discriminator_scalar; [set_solver|done|done]. }
    destruct (obj_mapM convertToFirestoreValue o) as [fs|e] eqn:Hfs; cbn; [|discriminate].
    intros [= <-]. eapply sd_mapValue.
    + by apply discriminator_count_obj1; set_solver.
    + apply lookup_singleton_eq.
    + apply lookup_singleton_eq.
    + apply obj_mapM_related in Hfs. intros key w Hw. specialize (Hfs key).
      destruct (o !! key) as [x|] eqn:Hx; [|congruence].
      destruct Hfs as (w' & Hxw & Hw'). eapply IH; [exact Hx|]. congruence.
  - destruct (reference_shape (VObjHidden c o h)).
    { intros [= <-]. apply single_discriminator_scalar; [set_solver|done|done]. }
    destruct (geoPoint_shape (VObjHidden c o h)).
    { intros [= <-]. apply single_discriminator_scalar; [set_solver|done|done]. }
    destruct (obj_mapM convertToFirestoreValue o) as [fs|e] eqn:Hfs; cbn; [|discriminate].
    intros [= <-]. eapply sd_mapValue.
    + by apply discriminator_count_obj1; set_solver.
    + apply lookup_singleton_eq.
    + apply lookup_singleton_eq.
    + apply obj_mapM_related in Hfs. intros key w Hw. specialize (Hfs key).
      destruct (o !! key) as [x|] eqn:Hx; [|congruence].
      destruct Hfs as (w' & Hxw & Hw'). eapply IH; [exact Hx|]. congruence.
Qed.

(** The encoder returns on every encodable value ... *)
Lemma encode_encodable v : encodable v → ∃ w, convertToFirestoreValue v = Ok w.
Proof.
  induction 1 as [| |b|x|s|d|n|src|t|client path r Hr|l _ IH|c o _ IH|c o h _ IH];
    cbn [convertToFirestoreValue]; try by eexists.
  - destruct (Number_isInteger x); by eexists.
  - rewrite Hr. by eexists.
  - fold (mapM convertToFirestoreValue).
    destruct (mapM_total convertToFirestoreValue l IH) as [ws ->]. by eexists.
  - destruct (reference_shape (VObj c o)); [by eexists|].
    destruct (geoPoint_shape (VObj c o)); [by eexists|].
    destruct (obj_mapM_total convertToFirestoreValue o IH) as [fs ->]. by eexists.
  - destruct (reference_shape (VObjHidden c o h)); [by eexists|].
    destruct (geoPoint_shape (VObjHidden c o h)); [by eexists|].
    destruct (obj_mapM_total convertToFirestoreValue o IH) as [fs ->]. by eexists.
Qed.

(** ... and, among the values whose objects have only the properties they
    list, throws on every other one. *)
Lemma encode_Ok_encodable v :
  own_only v → ∀ w, convertToFirestoreValue v = Ok w → encodable v.
Proof.
  induction v as [| |b|x|s|d|n|src|tv|client path|l IH|c o IH|c o h IH _]
    using value_ind_nested; intros Hown w; cbn [convertToFirestoreValue];
    try (intros _; by constructor).
  - destruct tv; [intros _; constructor|discriminate].
  - destruct (getParentReference client path) eqn:Hr; [|discriminate].
    intros _. by econstructor.
  - fold (mapM convertToFirestoreValue).
    destruct (mapM convertToFirestoreValue l) as [ws|e] eqn:Hws; [|discriminate].
    assert (∀ x, x ∈ l → own_only x) as Hl.
    { inversion Hown as [v Hv| |]; [discriminate Hv | done]. }
    intros _. constructor. intros x Hx. apply mapM_Forall2 in Hws.
    destruct (proj1 (list_elem_of_lookup l x) Hx) as [i Hi].
    destruct (Forall2_lookup_l _ _ _ _ _ Hws Hi) as (w' & _ & Hxw). eauto.
  - assert (∀ key x, o !! key = Some x → own_only x) as Ho.
    { inversion Hown as [v Hv| |]; [discriminate Hv | done]. }
    intros Hw. constructor. intros key x Hx.
    destruct (reference_shape (VObj c o)) eqn:Href.
    { apply reference_shape_inv in Href as [s ->].
      apply lookup_singleton_Some in Hx as [_ <-]. constructor. }
    rewrite geoPoint_shape_own in Hw.
    2:{ apply not_hidden_payload. intros g Hg.
        eapply own_only_not_hidden, Ho, Hg. }
    destruct (obj_mapM convertToFirestoreValue o) as [fs|e] eqn:Hfs; [|discriminate].
    apply obj_mapM_related in Hfs. specialize (Hfs key). rewrite Hx in Hfs.
    destruct Hfs as (w' & Hxw & _). eauto.
  - inversion Hown as [v Hv| |]; discriminate Hv.
Qed.

(** C4: for every native value, the wire value the encoder returns has
    exactly one of the discriminator keys, and so has every wire value
    nested in its [mapValue] fields and [arrayValue] elements; the encoder
    returns a wire value on every value whose dates hold an instant and
    whose document references are resolved by their client. *)
Theorem encoder_single_discriminator (v : value) :
  (∀ w, convertToFirestoreValue v = Ok w → single_discriminator w)
  ∧ (encodable v → ∃ w, convertToFirestoreValue v = Ok w).
Proof. split; [apply encode_single_discriminator | apply encode_encodable]. Qed.

(** ** Round trip *)

(** C2: for every native value made of strings, numbers, booleans, null,
    dates, arrays and plain mappings, decoding the encoded value gives the
    value back, in a runtime where parsing the ISO text of an instant gives
    the instant back. *)
Theorem roundtrip_plain_values (v : value) :
  (∀ t, time_in_range t → Date_parse (Date_toISOString t) = Some t) →
  plain v →
  ∃ w, convertToFirestoreValue v = Ok w ∧ convertFromFirestoreValue w = Ok v.
Proof.
  intros Hdate Hv. induction Hv as [s|x|b| |t Ht|l _ IH|o Ho IH].
  - eexists. split; [reflexivity|]. apply decode_scalar. set_solver.
  - cbn [convertToFirestoreValue].
    destruct (Number_isInteger x); eexists; (split; [reflexivity|]).
    + apply decode_integerValue.
    + apply decode_scalar. set_solver.
  - eexists. split; [reflexivity|]. apply decode_scalar. set_solver.
  - eexists. split; [reflexivity|]. apply decode_nullValue.
  - eexists. split; [reflexivity|].
    rewrite decode_timestampValue, Hdate by done. reflexivity.
  - destruct (mapM_total convertToFirestoreValue l) as [ws Hws].
    { intros x Hx. destruct (IH x Hx) as (w & Hw & _). eauto. }
    eexists. split.
    + cbn [convertToFirestoreValue]. fold (mapM convertToFirestoreValue).
      rewrite Hws. reflexivity.
    + rewrite decode_arrayValue.
      rewrite (mapM_inverse _ _ _ _ Hws); [reflexivity|].
      intros x w Hx Hw. destruct (IH x Hx) as (w' & Hw' & Hd). congruence.
  - cbn [convertToFirestoreValue]. rewrite geoPoint_shape_own.
    2:{ apply not_hidden_payload. intros g Hg.
        eapply plain_not_hidden, Ho, Hg. }
    destruct (reference_shape (VObj Plain o)) eqn:Href.
    + apply reference_shape_inv in Href as [s ->].
      eexists. split; [reflexivity|]. apply decode_referenceValue.
    + destruct (obj_mapM_total convertToFirestoreValue o) as [fs Hfs].
      { intros key x Hx. destruct (IH key x Hx) as (w & Hw & _). eauto. }
      rewrite Hfs. eexists. split; [reflexivity|].
      rewrite decode_mapValue.
      rewrite (obj_mapM_inverse _ _ _ _ Hfs); [reflexivity|].
      intros key x w Hx Hw. destruct (IH key x Hx) as (w' & Hw' & Hd). congruence.
Qed.

(** An invalid date holds no instant: the encoder throws on it. *)
Lemma encode_invalid_date :
  convertToFirestoreValue (VDate None) = Throw RangeError.
Proof. reflexivity. Qed.

(** ** The decoder *)

(** The decoder returns on every value of the closed wire union. *)
Lemma decode_FirestoreFieldValue w :
  FirestoreFieldValue w → ∃ v, convertFromFirestoreValue w = Ok v.
Proof.
  induction 1 as [s|x|x|b| |s|lat lon|s|fs _ IH|l _ IH].
  - eexists. apply decode_scalar. set_solver.
  - eexists. apply decode_integerValue.
  - eexists. apply decode_scalar. set_solver.
  - eexists. apply decode_scalar. set_solver.
  - eexists. apply decode_nullValue.
  - eexists. apply decode_timestampValue.
  - eexists. apply decode_geoPointValue.
  - eexists. apply decode_referenceValue.
  - rewrite decode_mapValue.
    destruct (obj_mapM_total convertFromFirestoreValue fs IH) as [r ->]. by eexists.
  - rewrite decode_arrayValue.
    destruct (mapM_total convertFromFirestoreValue l IH) as [r ->]. by eexists.
Qed.




(** Outside the closed wire union the decoder can throw: reading [fields]
    of a [mapValue] that is [null] is a [TypeError]. *)
Lemma decode_mapValue_null :
  convertFromFirestoreValue (obj1 "mapValue" VNull) = Throw TypeError.
Proof. vm_compute. reflexivity. Qed.

(** A wire value with no discriminator before [arrayValue]: what the
    decoder of [converter.ts] and the one of the second version do. *)
Lemma decode_arrayValue_object c o arrayValue :
  (∀ key, key ∈ discriminators → key ≠ "arrayValue" → o !! key = None) →
  o !! "arrayValue" = Some arrayValue →
  convertFromFirestoreValue (VObj c o)
  = (values ← get_prop arrayValue "values";
     if truthy values then Array_map convertFromFirestoreValue values
     else Ok VNull).
Proof.
  intros Hno Ha. rewrite decode_object, Ha.
  by rewrite !Hno by (done || unfold discriminators; set_solver).
Qed.

Lemma Variant_decode_arrayValue_object c o arrayValue :
  (∀ key, key ∈ discriminators → key ≠ "arrayValue" → o !! key = None) →
  o !! "arrayValue" = Some arrayValue →
  Variant.convertFromFirestoreValue (VObj c o)
  = (values ← get_prop arrayValue "values";
     Array_map Variant.convertFromFirestoreValue (or_empty_array values)).
Proof.
  intros Hno Ha. rewrite Variant_decode_object, Ha.
  by rewrite !Hno by (done || unfold discriminators; set_solver).
Qed.

Lemma mapM_array_Forall2 (f : value → result value) (l r : list value) :
  (ws ← mapM f l; Ok (VArr ws)) = Ok (VArr r) ↔ Forall2 (λ x w, f x = Ok w) l r.
Proof.
  rewrite <- mapM_Forall2. destruct (mapM f l) as [ws|e]; cbn [mbind result_bind].
  - split; [by intros [= ->] | by intros [= ->]].
  - split; discriminate.
Qed.

(** C3: an [arrayValue] whose [values] member is an array is decoded
    element by element, in order, by both versions of the decoder. When the
    [values] member is absent the decoder of the second version returns the
    empty array, and the decoder of [converter.ts] returns [null]. *)
Theorem arrayValue_without_values :
  (∀ l r, convertFromFirestoreValue (obj1 "arrayValue" (obj1 "values" (VArr l)))
          = Ok (VArr r)
          ↔ Forall2 (λ x w, convertFromFirestoreValue x = Ok w) l r)
  ∧ (∀ l r, Variant.convertFromFirestoreValue
              (obj1 "arrayValue" (obj1 "values" (VArr l))) = Ok (VArr r)
            ↔ Forall2 (λ x w, Variant.convertFromFirestoreValue x = Ok w) l r)
  ∧ Variant.convertFromFirestoreValue (obj1 "arrayValue" (VObj Plain ∅))
    = Ok (VArr [])
  ∧ convertFromFirestoreValue (obj1 "arrayValue" (VObj Plain ∅)) = Ok VNull.
Proof.
  split; [|split; [|split]].
  - intros l r. rewrite decode_arrayValue. apply mapM_array_Forall2.
  - intros l r. unfold obj1. rewrite Variant_decode_object.
    apply mapM_array_Forall2.
  - vm_compute. reflexivity.
  - vm_compute. reflexivity.
Qed.

(** ** The document wrappers *)

(** C9: the [fields] of the document that [convertToFirestoreDocument]
    returns have exactly the keys of the input, each with the encoding of
    the input's value; a document is returned whenever the encoder returns
    on every value of the input. *)
Theorem document_encode_key_set (data : gmap string value) :
  (∀ doc, convertToFirestoreDocument data = Ok doc →
     dom (doc_fields doc) = dom data
     ∧ ∀ key v, data !! key = Some v →
         ∃ w, convertToFirestoreValue v = Ok w ∧ doc_fields doc !! key = Some w)
  ∧ ((∀ key v, data !! key = Some v → encodable v) →
     ∃ doc, convertToFirestoreDocument data = Ok doc).
Proof.
  unfold convertToFirestoreDocument. split.
  - intros doc.
    destruct (obj_mapM convertToFirestoreValue data) as [fs|e] eqn:Hfs;
      cbn [mbind result_bind]; [|discriminate].
    intros [= <-]. cbn [doc_fields]. apply obj_mapM_related in Hfs. split.
    + by eapply fields_related_dom.
    + intros key v Hv. specialize (Hfs key). by rewrite Hv in Hfs.
  - intros Hdata.
    destruct (obj_mapM_total convertToFirestoreValue data) as [fs ->].
    { intros key v Hv. apply encode_encodable. by eapply Hdata. }
    by eexists.
Qed.

Lemma last_segment_no_slash s acc :
  has_slash s = false → last_segment acc s = acc +:+ s.
Proof.
  revert acc. induction s as [|c s IH]; intros acc; cbn [has_slash last_segment].
  - intros _. unfold String.app. induction acc; [done|]. cbn. by f_equal.
  - destruct (Ascii.eqb c "/"); [discriminate|]. cbn [orb]. intros Hs.
    rewrite IH by done. unfold String.app.
    induction acc; cbn; [done|]. by f_equal.
Qed.

(** The identifier is what follows the last [/] of the resource name. *)
Lemma getDocumentId_last_segment prefix s :
  has_slash s = false → getDocumentId (prefix +:+ "/" +:+ s) = s.
Proof.
  intros Hs. unfold getDocumentId.
  enough (∀ acc, last_segment acc (prefix +:+ "/" +:+ s) = s) as Hacc by apply Hacc.
  induction prefix as [|c p IH]; intros acc.
  - change ("" +:+ "/" +:+ s) with (String "/" s). cbn [last_segment Ascii.eqb].
    by rewrite last_segment_no_slash.
  - change (String c p +:+ "/" +:+ s) with (String c (p +:+ "/" +:+ s)).
    cbn [last_segment]. destruct (Ascii.eqb c "/"); apply IH.
Qed.

Lemma decode_document_with_fields doc fs :
  fields doc = Some fs →
  (∀ key w, fs !! key = Some w → ∃ v, convertFromFirestoreValue w = Ok v) →
  ∃ r, obj_mapM convertFromFirestoreValue fs = Ok r
       ∧ convertFromFirestoreDocument doc
         = Ok (<["id" := VStr (getDocumentId (name doc))]> r).
Proof.
  intros Hfs Hdec. unfold convertFromFirestoreDocument. rewrite Hfs.
  destruct (obj_mapM_total convertFromFirestoreValue fs Hdec) as [r Hr].
  exists r. by rewrite Hr.
Qed.

(** C8, amended: [convertFromFirestoreDocument] returns a mapping that
    holds every field of [fields] other than one named [id], decoded, and
    an [id] member equal to the last segment of the resource name, and
    nothing else; without [fields] it holds the [id] member only. *)
Theorem document_decode_fields_and_id (doc : FirestoreResponse) :
  (fields doc = None →
     convertFromFirestoreDocument doc
     = Ok {[ "id" := VStr (getDocumentId (name doc)) ]})
  ∧ (∀ fs, fields doc = Some fs →
       (∀ key w, fs !! key = Some w → ∃ v, convertFromFirestoreValue w = Ok v) →
       ∃ out, convertFromFirestoreDocument doc = Ok out
         ∧ out !! "id" = Some (VStr (getDocumentId (name doc)))
         ∧ decoded_fields convertFromFirestoreValue (delete "id" fs) out
         ∧ dom out = {[ "id" ]} ∪ dom (delete "id" fs))
  ∧ (∀ prefix s, has_slash s = false → getDocumentId (prefix +:+ "/" +:+ s) = s)
  ∧ convertFromFirestoreDocument doc1_without_fields = Ok {[ "id" := VStr "doc1" ]}
  ∧ convertFromFirestoreDocument doc1_with_fields
    = Ok {[ "n" := VStr "x"; "id" := VStr "doc1" ]}.
Proof.
  split; [|split; [|split; [|split]]].
  - intros Hnone. unfold convertFromFirestoreDocument. by rewrite Hnone.
  - intros fs Hfs Hdec.
    destruct (decode_document_with_fields doc fs Hfs Hdec) as (r & Hr & ->).
    apply obj_mapM_related in Hr. eexists. split; [reflexivity|]. split; [|split].
    + apply lookup_insert_eq.
    + intros key w. rewrite lookup_delete_Some. intros [Hne Hw].
      rewrite lookup_insert_ne by done.
      specialize (Hr key). by rewrite Hw in Hr.
    + rewrite dom_insert_L, (fields_related_dom _ _ _ Hr).
      rewrite dom_delete_L. apply set_eq. intros key.
      rewrite !elem_of_union, elem_of_difference, !elem_of_singleton.
      destruct (decide (key = "id")); tauto.
  - apply getDocumentId_last_segment.
  - vm_compute. reflexivity.
  - vm_compute. reflexivity.
Qed.

(** C10: when [fields] has a field named [id], the [id] member of what
    [convertFromFirestoreDocument] returns is the identifier taken from the
    resource name, in both versions of the module; the document is decoded
    whenever each of its fields is. *)
Theorem document_id_overwrites_field (doc : FirestoreResponse) fs w :
  fields doc = Some fs →
  fs !! "id" = Some w →
  (∀ out, convertFromFirestoreDocument doc = Ok out →
          out !! "id" = Some (VStr (getDocumentId (name doc))))
  ∧ (∀ out, Variant.convertFromFirestoreDocument doc = Ok out →
            out !! "id" = Some (VStr (getDocumentId (name doc))))
  ∧ ((∀ key x, fs !! key = Some x → ∃ v, convertFromFirestoreValue x = Ok v) →
     ∃ out, convertFromFirestoreDocument doc = Ok out).
Proof.
  intros Hfs Hid. split; [|split].
  - intros out. unfold convertFromFirestoreDocument. rewrite Hfs.
    destruct (obj_mapM convertFromFirestoreValue fs); cbn [mbind result_bind];
      [|discriminate].
    intros [= <-]. apply lookup_insert_eq.
  - intros out. unfold Variant.convertFromFirestoreDocument. rewrite Hfs.
    destruct (obj_mapM Variant.convertFromFirestoreValue fs);
      cbn [mbind result_bind]; [|discriminate].
    intros [= <-]. apply lookup_insert_eq.
  - intros Hdec.
    destruct (decode_document_with_fields doc fs Hfs Hdec) as (r & _ & ->).
    by eexists.
Qed.

End Properties.

(** * The statements at concrete inputs *)

Lemma plain_sample_native : plain sample_native.
Proof.
  apply plain_mapping.
  apply (map_Forall_insert_2 (λ _ x, plain x)); [|apply map_Forall_singleton].
  - apply plain_array. intros x. rewrite !elem_of_cons, elem_of_nil.
    intros [->|[->|[->|[]]]]; constructor.
  - apply plain_date. unfold time_in_range. lia.
Qed.

Lemma encodable_plain v : plain v → encodable v.
Proof. induction 1; constructor; auto. Qed.

Lemma roundtrip_plain_values_witness :
  ∃ w, convertToFirestoreValue (runtime := epoch_runtime) sample_native = Ok w
       ∧ convertFromFirestoreValue (runtime := epoch_runtime) w = Ok sample_native.
Proof.
  apply (roundtrip_plain_values (runtime := epoch_runtime) sample_native).
  - intros t _. apply epoch_parse_text.
  - apply plain_sample_native.
Defined.

Lemma encoder_single_discriminator_witness :
  ∃ w, convertToFirestoreValue (runtime := epoch_runtime) sample_native = Ok w
       ∧ single_discriminator w.
Proof.
  destruct (encoder_single_discriminator (runtime := epoch_runtime) sample_native)
    as [Hsd Hok].
  destruct (Hok (encodable_plain _ plain_sample_native)) as [w Hw].
  exists w. split; [exact Hw | exact (Hsd w Hw)].
Defined.



Lemma document_encode_key_set_witness :
  ∃ doc, convertToFirestoreDocument (runtime := epoch_runtime) {[ "n" := VStr "x" ]} = Ok doc
         ∧ doc_fields doc !! "n" = Some (obj1 "stringValue" (VStr "x")).
Proof.
  destruct (document_encode_key_set (runtime := epoch_runtime) {[ "n" := VStr "x" ]})
    as [Hfields Hok].
  destruct Hok as [doc Hdoc].
  { intros key v Hv. apply lookup_singleton_Some in Hv as [_ <-]. constructor. }
  exists doc. split; [exact Hdoc|].
  destruct (Hfields doc Hdoc) as [_ Hkey].
  destruct (Hkey "n" (VStr "x") (lookup_singleton_eq _ _)) as (w & Hw & ->).
  f_equal. by injection Hw as <-.
Defined.

Lemma document_decode_fields_and_id_witness :
  ∃ out, convertFromFirestoreDocument (runtime := epoch_runtime) doc1_with_fields = Ok out
         ∧ out !! "id" = Some (VStr "doc1")
         ∧ decoded_fields (convertFromFirestoreValue (runtime := epoch_runtime))
             {[ "n" := obj1 "stringValue" (VStr "x") ]} out.
Proof.
  destruct (document_decode_fields_and_id (runtime := epoch_runtime) doc1_with_fields)
    as (_ & Hfields & _).
  destruct (Hfields _ eq_refl) as (out & Hout & Hid & Hdec & _).
  { intros key w Hw. apply lookup_singleton_Some in Hw as [_ <-]. by eexists. }
  exists out. split; [exact Hout|]. split; [exact Hid|].
  intros key w Hw. apply Hdec. rewrite lookup_delete_Some. split; [|exact Hw].
  apply lookup_singleton_Some in Hw as [<- _]. discriminate.
Defined.

(** C8 as stated fails on a document with a field named [id]: the output
    does not hold that field decoded (the number 7), its [id] member is the
    identifier, a string. *)
Lemma document_decode_id_field_not_contained :
  ∃ fs out,
    fields doc1_with_id_field = Some fs
    ∧ convertFromFirestoreDocument (runtime := epoch_runtime) doc1_with_id_field = Ok out
    ∧ ¬ decoded_fields (convertFromFirestoreValue (runtime := epoch_runtime)) fs out.
Proof.
  eexists _, _. split; [reflexivity|]. split; [vm_compute; reflexivity|].
  intros Hdec.
  destruct (Hdec "id" _ (lookup_singleton_eq _ _)) as (v & Hv & Hout).
  vm_compute in Hv. vm_compute in Hout. congruence.
Qed.

Lemma document_id_overwrites_field_witness :
  ∃ out, convertFromFirestoreDocument (runtime := epoch_runtime) doc1_with_id_field = Ok out
         ∧ out !! "id" = Some (VStr "doc1").
Proof.
  destruct (document_id_overwrites_field (runtime := epoch_runtime) doc1_with_id_field
              {[ "id" := obj1 "integerValue" (VNum 7%float) ]}
              (obj1 "integerValue" (VNum 7%float)) eq_refl eq_refl)
    as (Hid & _ & Hok).
  destruct Hok as [out Hout].
  { intros key x Hx. apply lookup_singleton_Some in Hx as [_ <-]. by eexists. }
  exists out. split; [exact Hout | exact (Hid out Hout)].
Defined.

(** * Further properties of the converters *)

(** ** The combinators, continued *)

Lemma mapM_Throw {A B} (f : A → result B) (l : list A) x e :
  x ∈ l → f x = Throw e → ∃ e', mapM f l = Throw e'.
Proof.
  intros Hx Hfx. destruct (mapM f l) as [r|e'] eqn:Hl; [|by eexists].
  apply mapM_Forall2 in Hl.
  destruct (proj1 (list_elem_of_lookup l x) Hx) as [i Hi].
  destruct (Forall2_lookup_l _ _ _ _ _ Hl Hi) as (w & _ & Hw). congruence.
Qed.

Lemma obj_mapM_singleton {A B} (f : A → result B) key x :
  obj_mapM f {[ key := x ]} = (w ← f x; Ok {[ key := w ]}).
Proof.
  unfold obj_mapM. rewrite map_fold_singleton. cbn [mbind result_bind].
  destruct (f x); cbn; [|done]. by rewrite insert_empty.
Qed.

Lemma obj_mapM_fmap {A B} (f : A → result B) (g : A → B) (o : gmap string A) :
  (∀ key x, o !! key = Some x → f x = Ok (g x)) → obj_mapM f o = Ok (g <$> o).
Proof.
  intros Hg. destruct (obj_mapM_total f o) as [r Hr]; [by eauto|].
  rewrite Hr. f_equal. apply obj_mapM_related in Hr. apply map_eq. intros key.
  specialize (Hr key). rewrite lookup_fmap.
  destruct (o !! key) as [x|] eqn:Hx; cbn.
  - destruct Hr as (w & Hw & ->). rewrite (Hg key x Hx) in Hw. congruence.
  - exact Hr.
Qed.

Lemma obj_mapM_returns_iff {A B} (f : A → result B) (o : gmap string A) :
  (∃ r, obj_mapM f o = Ok r) ↔ ∀ key x, o !! key = Some x → ∃ w, f x = Ok w.
Proof.
  split; [|apply obj_mapM_total].
  intros [r Hr] key x Hx. apply obj_mapM_related in Hr. specialize (Hr key).
  rewrite Hx in Hr. destruct Hr as (w & Hw & _). eauto.
Qed.

Lemma fields_related_size {A B} (f : A → result B) (o : gmap string A) r :
  fields_related f o r → size r = size o.
Proof.
  intros H. apply fields_related_dom in H.
  by rewrite <- (size_dom r), <- (size_dom o), H.
Qed.

Section MoreProperties.

Context {runtime : Runtime}.

(** ** The encoder of [converter.ts] *)

Lemma encode_number x :
  convertToFirestoreValue (VNum x) = Ok (encoded_number x).
Proof.
  unfold encoded_number. cbn [convertToFirestoreValue].
  by destruct (Number_isInteger x).
Qed.

Lemma encode_object_map c o :
  (∀ s, o ≠ {[ "referenceValue" := VStr s ]}) →
  (∀ g, o !! "geoPointValue" = Some g → not_hidden g) →
  convertToFirestoreValue (VObj c o)
  = (fs ← obj_mapM convertToFirestoreValue o;
     Ok (obj1 "mapValue" (obj1 "fields" (VObj Plain fs)))).
Proof.
  intros Hno Hgeo. cbn [convertToFirestoreValue].
  rewrite geoPoint_shape_own by by apply not_hidden_payload.
  destruct (reference_shape (VObj c o)) eqn:Href; [|reflexivity].
  apply reference_shape_inv in Href as [s ->]. by destruct (Hno s).
Qed.

Lemma encode_object_hidden_reference c o h s :
  size o = 1%nat →
  read (VObjHidden c o h) "referenceValue" = VStr s →
  convertToFirestoreValue (VObjHidden c o h) = Ok (obj1 "referenceValue" (VStr s)).
Proof.
  intros Hsz Hread. cbn [convertToFirestoreValue].
  assert (reference_shape (VObjHidden c o h) = true) as ->; [|by rewrite Hread].
  unfold reference_shape. rewrite Hread.
  cbn [is_typeof_object typeof truthy Object_keys_length is_string in_object andb].
  rewrite Hsz. cbn [Nat.eqb andb]. rewrite andb_true_r.
  unfold read in Hread. cbn [get_prop] in Hread. unfold has_key.
  destruct (o !! "referenceValue"); [reflexivity|].
  destruct (h !! "referenceValue"); [reflexivity|discriminate].
Qed.

(** X1: an object that has only the properties it lists is passed through
    as a reference when it is exactly [{referenceValue: s}] for a string [s];
    every other such object, whatever its class, whose [geoPointValue]
    member, if any, has no hidden property, is encoded as a [mapValue]
    holding the encoding of each of its properties, and the encoder throws
    when the encoding of one of them does. An object with hidden properties
    that lists exactly one property and whose [referenceValue], listed or
    hidden, is a string [s] is written as the reference [s]: when
    [referenceValue] is the hidden one, the listed property is dropped. *)
Theorem encoder_object_reference_or_map :
  (∀ c s, convertToFirestoreValue (VObj c {[ "referenceValue" := VStr s ]})
          = Ok (obj1 "referenceValue" (VStr s)))
  ∧ (∀ c o, (∀ s, o ≠ {[ "referenceValue" := VStr s ]}) →
       (∀ g, o !! "geoPointValue" = Some g → not_hidden g) →
       convertToFirestoreValue (VObj c o)
       = (fs ← obj_mapM convertToFirestoreValue o;
          Ok (obj1 "mapValue" (obj1 "fields" (VObj Plain fs)))))
  ∧ (∀ c o h s, size o = 1%nat →
       read (VObjHidden c o h) "referenceValue" = VStr s →
       convertToFirestoreValue (VObjHidden c o h)
       = Ok (obj1 "referenceValue" (VStr s)))
  ∧ (∀ c key x s, key ≠ "referenceValue" →
       convertToFirestoreValue
         (VObjHidden c {[ key := x ]} {[ "referenceValue" := VStr s ]})
       = Ok (obj1 "referenceValue" (VStr s))).
Proof.
  split; [reflexivity|]. split; [apply encode_object_map|].
  split; [apply encode_object_hidden_reference|].
  intros c key x s Hkey. apply encode_object_hidden_reference.
  - apply map_size_singleton.
  - unfold read. cbn [get_prop].
    by rewrite lookup_singleton_ne, lookup_singleton_eq.
Qed.

(** X2: the encoder of [converter.ts] returns a [geoPointValue] only for an
    object whose [geoPointValue] payload has hidden properties, lists one
    property and so does not list both [latitude] and [longitude]: the test
    of lines 53-65 asks the payload for both coordinates and for exactly one
    listed key. A payload
    that has only the properties it lists, an object literal or parsed JSON,
    is never written as a [geoPointValue]; a payload that lists [latitude]
    and inherits [longitude] is. *)
Theorem encoder_geoPointValue_needs_hidden_coordinate :
  (∀ v w, convertToFirestoreValue v = Ok w →
     in_object "geoPointValue" w = true →
     ∃ c g h, read v "geoPointValue" = VObjHidden c g h
              ∧ size g = 1%nat
              ∧ (g !! "latitude" = None ∨ g !! "longitude" = None))
  ∧ (∀ v w, convertToFirestoreValue v = Ok w →
       not_hidden (read v "geoPointValue") →
       in_object "geoPointValue" w = false)
  ∧ (∀ lat lon,
       convertToFirestoreValue
         (obj1 "geoPointValue"
            (VObjHidden Plain {[ "latitude" := VNum lat ]}
                              {[ "longitude" := VNum lon ]}))
       = Ok (obj1 "geoPointValue"
               (VObj Plain {[ "latitude" := VNum lat; "longitude" := VNum lon ]}))).
Proof.
  assert (∀ v w, convertToFirestoreValue v = Ok w →
            in_object "geoPointValue" w = true → geoPoint_shape v = true) as Hgeo.
  { intros v w.
    destruct v as [| |b|x|s|d|n|src|tv|client path|l|c o|c o h];
      cbn [convertToFirestoreValue]; try (intros [= <-]; discriminate).
    - destruct (Number_isInteger x); intros [= <-]; discriminate.
    - destruct tv; cbn; [|discriminate]. intros [= <-]; discriminate.
    - destruct (getParentReference client path); cbn; [|discriminate].
      intros [= <-]; discriminate.
    - fold (mapM convertToFirestoreValue).
      destruct (mapM convertToFirestoreValue l); cbn; [|discriminate].
      intros [= <-]; discriminate.
    - destruct (reference_shape (VObj c o)); [intros [= <-]; discriminate|].
      destruct (geoPoint_shape (VObj c o)); [reflexivity|].
      destruct (obj_mapM convertToFirestoreValue o); cbn; [|discriminate].
      intros [= <-]; discriminate.
    - destruct (reference_shape (VObjHidden c o h)); [intros [= <-]; discriminate|].
      destruct (geoPoint_shape (VObjHidden c o h)); [reflexivity|].
      destruct (obj_mapM convertToFirestoreValue o); cbn; [|discriminate].
      intros [= <-]; discriminate. }
  split; [|split].
  - intros v w Hw Hin. apply geoPoint_shape_hidden. by eapply Hgeo.
  - intros v w Hw Hown. destruct (in_object "geoPointValue" w) eqn:Hin; [|reflexivity].
    apply (Hgeo v w Hw) in Hin. rewrite geoPoint_shape_own in Hin by done.
    discriminate.
  - intros lat lon. reflexivity.
Qed.

Lemma encode_FirestoreFieldValue v :
  ∀ w, convertToFirestoreValue v = Ok w → FirestoreFieldValue w.
Proof.
  induction v as [| |b|x|s|d|n|src|tv|client path|l IH|c o IH|c o h IH _]
    using value_ind_nested; intros w; cbn [convertToFirestoreValue].
  all: try (intros [= <-]; constructor).
  - destruct (Number_isInteger x); intros [= <-]; constructor.
  - destruct tv as [t|]; cbn; [|discriminate]. intros [= <-]. constructor.
  - destruct (getParentReference client path); cbn; [|discriminate].
    intros [= <-]. constructor.
  - fold (mapM convertToFirestoreValue).
    destruct (mapM convertToFirestoreValue l) as [ws|e] eqn:Hws; cbn; [|discriminate].
    intros [= <-]. constructor. apply mapM_Forall2 in Hws. intros w Hw.
    destruct (proj1 (list_elem_of_lookup ws w) Hw) as [i Hi].
    destruct (Forall2_lookup_r _ _ _ _ _ Hws Hi) as (x & Hx & Hxw).
    eapply IH; [|exact Hxw]. eapply list_elem_of_lookup_2; eauto.
  - destruct (reference_shape (VObj c o)) eqn:Href.
    { apply reference_shape_string in Href as [s ->]. intros [= <-]. constructor. }
    destruct (geoPoint_shape (VObj c o)) eqn:Hgeo.
    { apply geoPoint_shape_numbers in Hgeo as (lat & lon & -> & ->).
      intros [= <-]. constructor. }
    destruct (obj_mapM convertToFirestoreValue o) as [fs|e] eqn:Hfs; cbn; [|discriminate].
    intros [= <-]. constructor.
    apply obj_mapM_related in Hfs. intros key w Hw. specialize (Hfs key).
    destruct (o !! key) as [x|] eqn:Hx; [|congruence].
    destruct Hfs as (w' & Hxw & Hw'). eapply IH; [exact Hx|]. congruence.
  - destruct (reference_shape (VObjHidden c o h)) eqn:Href.
    { apply reference_shape_string in Href as [s ->]. intros [= <-]. constructor. }
    destruct (geoPoint_shape (VObjHidden c o h)) eqn:Hgeo.
    { apply geoPoint_shape_numbers in Hgeo as (lat & lon & -> & ->).
      intros [= <-]. constructor. }
    destruct (obj_mapM convertToFirestoreValue o) as [fs|e] eqn:Hfs; cbn; [|discriminate].
    intros [= <-]. constructor.
    apply obj_mapM_related in Hfs. intros key w Hw. specialize (Hfs key).
    destruct (o !! key) as [x|] eqn:Hx; [|congruence].
    destruct Hfs as (w' & Hxw & Hw'). eapply IH; [exact Hx|]. congruence.
Qed.

(** X3: whatever the encoder returns is a value of the closed union
    [FirestoreFieldValue] of [types.ts], at every level, so that the decoder
    returns on it and does not throw. *)
Theorem encoder_output_in_wire_union (v w : value) :
  convertToFirestoreValue v = Ok w →
  FirestoreFieldValue w ∧ ∃ v', convertFromFirestoreValue w = Ok v'.
Proof.
  intros Hw. apply encode_FirestoreFieldValue in Hw.
  split; [exact Hw | by apply decode_FirestoreFieldValue].
Qed.

(** X4: among the values whose objects, at any depth, have only the
    properties they list, the encoder returns a wire value exactly on those
    in which every date holds an instant and every document reference is
    resolved by its client; on every other such value it throws. *)
Theorem encoder_returns_iff_encodable (v : value) :
  own_only v →
  (∃ w, convertToFirestoreValue v = Ok w) ↔ encodable v.
Proof.
  intros Hown.
  split; [intros [w Hw]; by eapply encode_Ok_encodable | apply encode_encodable].
Qed.

Lemma obj1_array_inj (ws r : list value) :
  obj1 "arrayValue" (obj1 "values" (VArr ws))
  = obj1 "arrayValue" (obj1 "values" (VArr r)) → ws = r.
Proof.
  intros Heq.
  apply (f_equal (λ v, read (read v "arrayValue") "values")) in Heq.
  by injection Heq.
Qed.

(** X18: an array is encoded element by element, in order, into the
    [values] of an [arrayValue]; the empty array is encoded with an empty
    [values] member, which the decoder reads back as the empty array. *)
Theorem encoder_array_elementwise :
  (∀ l ws, convertToFirestoreValue (VArr l)
           = Ok (obj1 "arrayValue" (obj1 "values" (VArr ws)))
           ↔ Forall2 (λ x w, convertToFirestoreValue x = Ok w) l ws)
  ∧ convertToFirestoreValue (VArr [])
    = Ok (obj1 "arrayValue" (obj1 "values" (VArr [])))
  ∧ convertFromFirestoreValue (obj1 "arrayValue" (obj1 "values" (VArr [])))
    = Ok (VArr []).
Proof.
  split; [|split; [reflexivity | by rewrite decode_arrayValue]].
  intros l ws. rewrite <- mapM_Forall2.
  cbn [convertToFirestoreValue]. fold (mapM convertToFirestoreValue).
  destruct (mapM convertToFirestoreValue l) as [r|e]; cbn [mbind result_bind].
  - split; [|by intros [= ->]].
    intros Heq. f_equal. apply obj1_array_inj. congruence.
  - split; discriminate.
Qed.

(** ** Decoding, then encoding *)

(** The decoder builds no object with hidden properties from a wire value
    in that form. *)
Lemma decode_canonical_not_hidden w v :
  canonical_wire w → convertFromFirestoreValue w = Ok v → not_hidden v.
Proof.
  destruct 1 as [s|x Hx|x Hx|b| |t Ht|s|fs _ _|l _].
  - rewrite decode_scalar by set_solver. by intros [= <-].
  - rewrite decode_integerValue. by intros [= <-].
  - rewrite decode_scalar by set_solver. by intros [= <-].
  - rewrite decode_scalar by set_solver. by intros [= <-].
  - rewrite decode_nullValue. by intros [= <-].
  - rewrite decode_timestampValue. by intros [= <-].
  - rewrite decode_referenceValue. by intros [= <-].
  - rewrite decode_mapValue.
    destruct (obj_mapM convertFromFirestoreValue fs); cbn; [|discriminate].
    by intros [= <-].
  - rewrite decode_arrayValue.
    destruct (mapM convertFromFirestoreValue l); cbn; [|discriminate].
    by intros [= <-].
Qed.

(** X5: a wire value in the form the encoder writes is decoded to a native
    value that the encoder turns back into the same wire value, in a runtime
    where parsing the ISO text of an instant gives the instant back. *)
Theorem wire_roundtrip_canonical (w : value) :
  (∀ t, time_in_range t → Date_parse (Date_toISOString t) = Some t) →
  canonical_wire w →
  ∃ v, convertFromFirestoreValue w = Ok v ∧ convertToFirestoreValue v = Ok w.
Proof.
  intros Hdate Hw. induction Hw as [s|x Hx|x Hx|b| |t Ht|s|fs Hcw IH Hnoref|l _ IH].
  - eexists. split; [apply decode_scalar; set_solver | reflexivity].
  - eexists. split; [apply decode_integerValue|].
    rewrite encode_number. unfold encoded_number. by rewrite Hx.
  - eexists. split; [apply decode_scalar; set_solver|].
    rewrite encode_number. unfold encoded_number. by rewrite Hx.
  - eexists. split; [apply decode_scalar; set_solver | reflexivity].
  - eexists. split; [apply decode_nullValue | reflexivity].
  - eexists. split.
    + rewrite decode_timestampValue, Hdate by done. reflexivity.
    + reflexivity.
  - eexists. split; [apply decode_referenceValue | reflexivity].
  - destruct (obj_mapM_total convertFromFirestoreValue fs) as [r Hr].
    { intros key x Hx. destruct (IH key x Hx) as (v & Hv & _). eauto. }
    exists (VObj Plain r). split.
    + rewrite decode_mapValue, Hr. reflexivity.
    + cbn [convertToFirestoreValue]. rewrite geoPoint_shape_own.
      2:{ apply not_hidden_payload. intros g Hg.
          pose proof (obj_mapM_related _ _ _ Hr "geoPointValue") as Hk.
          destruct (fs !! "geoPointValue") as [x|] eqn:Hx; [|congruence].
          destruct Hk as (v & Hv & Hlook).
          eapply decode_canonical_not_hidden; [by eapply Hcw|]. congruence. }
      destruct (reference_shape (VObj Plain r)) eqn:Href.
      * exfalso. apply reference_shape_inv in Href as [s ->]. apply Hnoref.
        pose proof (obj_mapM_related _ _ _ Hr) as Hrel.
        pose proof (fields_related_size _ _ _ Hrel) as Hsz.
        rewrite map_size_singleton in Hsz.
        pose proof (Hrel "referenceValue") as Hk.
        destruct (fs !! "referenceValue") as [x|] eqn:Hx.
        -- destruct Hk as (v & Hv & Hlook). rewrite lookup_singleton_eq in Hlook.
           injection Hlook as <-.
           destruct (IH _ _ Hx) as (v' & Hv' & Henc). rewrite Hv in Hv'.
           injection Hv' as <-. cbn in Henc. injection Henc as <-.
           exists s. by apply size_one_singleton.
        -- by rewrite lookup_singleton_eq in Hk.
      * rewrite (obj_mapM_inverse _ _ _ _ Hr); [reflexivity|].
        intros key x v Hx Hv. destruct (IH key x Hx) as (v' & Hv' & Henc). congruence.
  - destruct (mapM_total convertFromFirestoreValue l) as [r Hr].
    { intros x Hx. destruct (IH x Hx) as (v & Hv & _). eauto. }
    exists (VArr r). split.
    + rewrite decode_arrayValue, Hr. reflexivity.
    + cbn [convertToFirestoreValue]. fold (mapM convertToFirestoreValue).
      rewrite (mapM_inverse _ _ _ _ Hr); [reflexivity|].
      intros x v Hx Hv. destruct (IH x Hx) as (v' & Hv' & Henc). congruence.
Qed.

(** X6: a [doubleValue] that holds an integer does not come back as a
    [doubleValue]: it is decoded to the number, which the encoder writes as
    an [integerValue]. *)
Theorem integral_double_reencoded_as_integer (x : float) :
  Number_isInteger x = true →
  convertFromFirestoreValue (obj1 "doubleValue" (VNum x)) = Ok (VNum x)
  ∧ convertToFirestoreValue (VNum x) = Ok (obj1 "integerValue" (VNum x)).
Proof.
  intros Hx. split; [apply decode_scalar; set_solver|].
  rewrite encode_number. unfold encoded_number. by rewrite Hx.
Qed.

(** X7: a [geoPointValue] does not come back as a [geoPointValue]: the
    decoder of [converter.ts] returns the wire value itself, and the encoder
    writes that object as a [mapValue] with a field [geoPointValue] that is
    a [mapValue] of the two coordinates. *)
Theorem geoPoint_wire_reencoded_as_map (lat lon : float) :
  convertFromFirestoreValue
    (obj1 "geoPointValue"
       (VObj Plain {[ "latitude" := VNum lat; "longitude" := VNum lon ]}))
  = Ok (obj1 "geoPointValue"
          (VObj Plain {[ "latitude" := VNum lat; "longitude" := VNum lon ]}))
  ∧ convertToFirestoreValue
      (obj1 "geoPointValue"
         (VObj Plain {[ "latitude" := VNum lat; "longitude" := VNum lon ]}))
    = Ok (obj1 "mapValue" (obj1 "fields" (VObj Plain
        {[ "geoPointValue" :=
             obj1 "mapValue" (obj1 "fields" (VObj Plain
               {[ "latitude" := encoded_number lat;
                  "longitude" := encoded_number lon ]})) ]}))).
Proof.
  split; [apply decode_geoPointValue|].
  unfold obj1 at 1. rewrite encode_object_map, obj_mapM_singleton.
  2:{ intros s Heq. apply (f_equal (.!! "geoPointValue")) in Heq.
      by rewrite lookup_singleton_eq, lookup_singleton_ne in Heq. }
  2:{ intros g Hg. by apply lookup_singleton_Some in Hg as [_ <-]. }
  rewrite encode_object_map.
  2:{ intros s Heq. apply (f_equal (.!! "latitude")) in Heq.
      by rewrite lookup_insert_eq, lookup_singleton_ne in Heq. }
  2:{ intros g. by rewrite lookup_insert_ne, lookup_singleton_ne. }
  rewrite (obj_mapM_fmap _
             (λ v, match v with VNum x => encoded_number x | _ => VNull end)).
  - rewrite fmap_insert, map_fmap_singleton. reflexivity.
  - intros key x. rewrite lookup_insert_Some, lookup_singleton_Some.
    intros [[_ <-]|[_ [_ <-]]]; apply encode_number.
Qed.

(** X8: a [mapValue] whose only field is a string named [referenceValue]
    does not come back as a [mapValue]: it is decoded to the object
    [{referenceValue: s}], which the encoder passes through as a reference. *)
Theorem lone_referenceValue_field_becomes_reference (s : string) :
  convertFromFirestoreValue
    (obj1 "mapValue" (obj1 "fields" (VObj Plain
       {[ "referenceValue" := obj1 "stringValue" (VStr s) ]})))
  = Ok (obj1 "referenceValue" (VStr s))
  ∧ convertToFirestoreValue (obj1 "referenceValue" (VStr s))
    = Ok (obj1 "referenceValue" (VStr s)).
Proof.
  split; [|reflexivity].
  rewrite decode_mapValue, obj_mapM_singleton, decode_scalar by set_solver.
  reflexivity.
Qed.

(** X9: a [timestampValue] whose text the runtime cannot parse is decoded,
    without an error, to an invalid date, and the encoder throws a
    [RangeError] on that date. *)
Theorem malformed_timestamp_cannot_be_reencoded (s : string) :
  Date_parse s = None →
  convertFromFirestoreValue (obj1 "timestampValue" (VStr s)) = Ok (VDate None)
  ∧ convertToFirestoreValue (VDate None) = Throw RangeError.
Proof.
  intros Hs. split; [by rewrite decode_timestampValue, Hs | reflexivity].
Qed.

(** ** The decoder on what is not an object *)

Lemma Variant_decode_non_object v :
  is_object v = false → Variant.convertFromFirestoreValue v = Throw TypeError.
Proof. destruct v; try discriminate; reflexivity. Qed.

(** X13: both decoders throw a [TypeError] on an argument that is not an
    object ([null], [undefined], a string, a number, a boolean), and the
    decoder of [converter.ts] throws on an [arrayValue] or a [mapValue]
    that holds such a value as an element or a field. *)
Theorem decoder_throws_on_non_object :
  (∀ v, is_object v = false →
        convertFromFirestoreValue v = Throw TypeError
        ∧ Variant.convertFromFirestoreValue v = Throw TypeError)
  ∧ (∀ l x, x ∈ l → is_object x = false →
       ∃ e, convertFromFirestoreValue (obj1 "arrayValue" (obj1 "values" (VArr l)))
            = Throw e)
  ∧ (∀ fs key x, fs !! key = Some x → is_object x = false →
       ∃ e, convertFromFirestoreValue
              (obj1 "mapValue" (obj1 "fields" (VObj Plain fs)))
            = Throw e).
Proof.
  split; [|split].
  - intros v Hv.
    split; [by apply decode_non_object | by apply Variant_decode_non_object].
  - intros l x Hx Hobj. rewrite decode_arrayValue.
    destruct (mapM_Throw convertFromFirestoreValue l x TypeError Hx) as [e ->];
      [by apply decode_non_object|]. by eexists.
  - intros fs key x Hx Hobj. rewrite decode_mapValue.
    destruct (obj_mapM convertFromFirestoreValue fs) as [r|e] eqn:Hr; [|by eexists].
    apply obj_mapM_related in Hr. specialize (Hr key). rewrite Hx in Hr.
    destruct Hr as (w & Hw & _). rewrite decode_non_object in Hw by done.
    discriminate.
Qed.

(** ** The document wrappers, composed *)

Lemma plain_encode_decode v :
  (∀ t, time_in_range t → Date_parse (Date_toISOString t) = Some t) →
  plain v →
  ∃ w, convertToFirestoreValue v = Ok w ∧ convertFromFirestoreValue w = Ok v.
Proof.
  intros Hdate Hv. induction Hv as [s|x|b| |t Ht|l _ IH|o Ho IH].
  - eexists. split; [reflexivity|]. apply decode_scalar. set_solver.
  - rewrite encode_number. unfold encoded_number.
    destruct (Number_isInteger x); eexists; (split; [reflexivity|]).
    + apply decode_integerValue.
    + apply decode_scalar. set_solver.
  - eexists. split; [reflexivity|]. apply decode_scalar. set_solver.
  - eexists. split; [reflexivity|]. apply decode_nullValue.
  - eexists. split; [reflexivity|].
    rewrite decode_timestampValue, Hdate by done. reflexivity.
  - destruct (mapM_total convertToFirestoreValue l) as [ws Hws].
    { intros x Hx. destruct (IH x Hx) as (w & Hw & _). eauto. }
    exists (obj1 "arrayValue" (obj1 "values" (VArr ws))). split.
    + cbn [convertToFirestoreValue]. fold (mapM convertToFirestoreValue).
      by rewrite Hws.
    + rewrite decode_arrayValue, (mapM_inverse _ _ _ _ Hws); [reflexivity|].
      intros x w Hx Hw. destruct (IH x Hx) as (w' & Hw' & Hd). congruence.
  - destruct (reference_shape (VObj Plain o)) eqn:Href.
    + apply reference_shape_inv in Href as [s ->].
      eexists. split; [reflexivity|]. apply decode_referenceValue.
    + destruct (obj_mapM_total convertToFirestoreValue o) as [fs Hfs].
      { intros key x Hx. destruct (IH key x Hx) as (w & Hw & _). eauto. }
      exists (obj1 "mapValue" (obj1 "fields" (VObj Plain fs))). split.
      * cbn [convertToFirestoreValue]. rewrite Href, geoPoint_shape_own, Hfs; [done|].
        apply not_hidden_payload. intros g Hg. eapply plain_not_hidden, Ho, Hg.
      * rewrite decode_mapValue, (obj_mapM_inverse _ _ _ _ Hfs); [reflexivity|].
        intros key x w Hx Hw. destruct (IH key x Hx) as (w' & Hw' & Hd). congruence.
Qed.

(** X10: the document the document encoder returns for a record of strings,
    numbers, booleans, nulls, dates, arrays and plain mappings is decoded by
    the document decoder, under any resource name, to the same record with
    its [id] member set to the identifier of that name: a member [id] of the
    record is replaced, every other member comes back. *)
Theorem document_roundtrip (data : gmap string value) (resource : string) :
  (∀ t, time_in_range t → Date_parse (Date_toISOString t) = Some t) →
  (∀ key v, data !! key = Some v → plain v) →
  ∃ doc, convertToFirestoreDocument data = Ok doc
    ∧ convertFromFirestoreDocument
        {| name := resource; fields := Some (doc_fields doc);
           createTime := doc_createTime doc; updateTime := doc_updateTime doc |}
      = Ok (<["id" := VStr (getDocumentId resource)]> data).
Proof.
  intros Hdate Hplain. unfold convertToFirestoreDocument.
  destruct (obj_mapM_total convertToFirestoreValue data) as [fs Hfs].
  { intros key v Hv.
    destruct (plain_encode_decode v Hdate (Hplain key v Hv)) as (w & Hw & _). eauto. }
  rewrite Hfs. eexists. split; [reflexivity|].
  unfold convertFromFirestoreDocument. cbn [fields doc_fields name].
  rewrite (obj_mapM_inverse _ _ _ _ Hfs); [reflexivity|].
  intros key v w Hv Hw.
  destruct (plain_encode_decode v Hdate (Hplain key v Hv)) as (w' & Hw' & Hd).
  congruence.
Qed.

(** X11: the document decoder returns exactly when the decoder returns on
    every field: one field on which it throws fails the whole document. *)
Theorem document_decode_returns_iff_fields_decode (doc : FirestoreResponse) fs :
  fields doc = Some fs →
  (∃ out, convertFromFirestoreDocument doc = Ok out)
  ↔ ∀ key w, fs !! key = Some w → ∃ v, convertFromFirestoreValue w = Ok v.
Proof.
  intros Hfs. rewrite <- obj_mapM_returns_iff.
  unfold convertFromFirestoreDocument. rewrite Hfs.
  destruct (obj_mapM convertFromFirestoreValue fs) as [r|e]; cbn [mbind result_bind].
  - split; intros _; by eexists.
  - split; intros [? [=]].
Qed.

(** X12: for a record whose objects, at any depth, have only the
    properties they list, the document encoder returns exactly when every
    date in the record, at any depth, holds an instant and every document
    reference is resolved by its client: one invalid date fails the whole
    document. *)
Theorem document_encode_returns_iff_encodable (data : gmap string value) :
  (∀ key v, data !! key = Some v → own_only v) →
  (∃ doc, convertToFirestoreDocument data = Ok doc)
  ↔ ∀ key v, data !! key = Some v → encodable v.
Proof.
  intros Hown. unfold convertToFirestoreDocument. split.
  - intros [doc Hdoc] key v Hv.
    destruct (obj_mapM convertToFirestoreValue data) as [fs|e] eqn:Hfs; [|discriminate].
    apply obj_mapM_related in Hfs. specialize (Hfs key). rewrite Hv in Hfs.
    destruct Hfs as (w & Hw & _).
    eapply encode_Ok_encodable; [by eapply Hown | exact Hw].
  - intros Hdata.
    destruct (obj_mapM_total convertToFirestoreValue data) as [fs ->].
    { intros key v Hv. apply encode_encodable. by eapply Hdata. }
    by eexists.
Qed.

(** ** The encoder of the second version *)

Lemma Variant_decode_scalar key x :
  key ∈ ["stringValue"; "doubleValue"; "booleanValue"] →
  Variant.convertFromFirestoreValue (obj1 key x) = Ok x.
Proof.
  rewrite !elem_of_cons, elem_of_nil. unfold obj1.
  intros [->|[->|[->|[]]]]; by rewrite Variant_decode_object.
Qed.

Lemma Variant_decode_integerValue x :
  Variant.convertFromFirestoreValue (obj1 "integerValue" (VNum x)) = Ok (VNum x).
Proof. unfold obj1. by rewrite Variant_decode_object. Qed.

Lemma Variant_decode_nullValue x :
  Variant.convertFromFirestoreValue (obj1 "nullValue" x) = Ok VNull.
Proof. unfold obj1. by rewrite Variant_decode_object. Qed.

Lemma Variant_decode_timestampValue s :
  Variant.convertFromFirestoreValue (obj1 "timestampValue" (VStr s))
  = Ok (VDate (Date_parse s)).
Proof. unfold obj1. by rewrite Variant_decode_object. Qed.

Lemma Variant_decode_arrayValue ws :
  Variant.convertFromFirestoreValue (obj1 "arrayValue" (obj1 "values" (VArr ws)))
  = r ← mapM Variant.convertFromFirestoreValue ws; Ok (VArr r).
Proof. unfold obj1. by rewrite Variant_decode_object. Qed.

Lemma Variant_decode_mapValue fs :
  Variant.convertFromFirestoreValue (obj1 "mapValue" (obj1 "fields" (VObj Plain fs)))
  = r ← obj_mapM Variant.convertFromFirestoreValue fs; Ok (VObj Plain r).
Proof. unfold obj1. by rewrite Variant_decode_object. Qed.

(** X14: in the second version too, decoding the encoding of a value made
    of strings, numbers, booleans, null, dates, arrays and plain mappings
    gives the value back, in a runtime where parsing the ISO text of an
    instant gives the instant back. *)
Theorem Variant_roundtrip_plain_values (v : value) :
  (∀ t, time_in_range t → Date_parse (Date_toISOString t) = Some t) →
  plain v →
  ∃ w, Variant.convertToFirestoreValue v = Ok w
       ∧ Variant.convertFromFirestoreValue w = Ok v.
Proof.
  intros Hdate Hv. induction Hv as [s|x|b| |t Ht|l _ IH|o _ IH].
  - eexists. split; [reflexivity|]. apply Variant_decode_scalar. set_solver.
  - cbn [Variant.convertToFirestoreValue].
    destruct (Number_isInteger x); eexists; (split; [reflexivity|]).
    + apply Variant_decode_integerValue.
    + apply Variant_decode_scalar. set_solver.
  - eexists. split; [reflexivity|]. apply Variant_decode_scalar. set_solver.
  - eexists. split; [reflexivity|]. apply Variant_decode_nullValue.
  - eexists. split; [reflexivity|].
    rewrite Variant_decode_timestampValue, Hdate by done. reflexivity.
  - destruct (mapM_total Variant.convertToFirestoreValue l) as [ws Hws].
    { intros x Hx. destruct (IH x Hx) as (w & Hw & _). eauto. }
    exists (obj1 "arrayValue" (obj1 "values" (VArr ws))). split.
    + cbn [Variant.convertToFirestoreValue].
      fold (mapM Variant.convertToFirestoreValue). by rewrite Hws.
    + rewrite Variant_decode_arrayValue, (mapM_inverse _ _ _ _ Hws); [reflexivity|].
      intros x w Hx Hw. destruct (IH x Hx) as (w' & Hw' & Hd). congruence.
  - destruct (obj_mapM_total Variant.convertToFirestoreValue o) as [fs Hfs].
    { intros key x Hx. destruct (IH key x Hx) as (w & Hw & _). eauto. }
    exists (obj1 "mapValue" (obj1 "fields" (VObj Plain fs))). split.
    + cbn [Variant.convertToFirestoreValue]. by rewrite Hfs.
    + rewrite Variant_decode_mapValue, (obj_mapM_inverse _ _ _ _ Hfs); [reflexivity|].
      intros key x w Hx Hw. destruct (IH key x Hx) as (w' & Hw' & Hd). congruence.
Qed.

(** X15: every wire value the encoder of the second version returns has
    exactly one discriminator key, at every level. *)
Theorem Variant_encoder_single_discriminator (v w : value) :
  Variant.convertToFirestoreValue v = Ok w → single_discriminator w.
Proof.
  revert w.
  induction v as [| |b|x|s|d|n|src|tv|client path|l IH|c o IH|c o h IH _]
    using value_ind_nested; intros w; cbn [Variant.convertToFirestoreValue].
  all: try (intros [= <-]; apply single_discriminator_scalar; [set_solver|done|done]).
  - destruct (Number_isInteger x); intros [= <-];
      (apply single_discriminator_scalar; [set_solver|done|done]).
  - destruct tv as [t|]; cbn; [|discriminate].
    intros [= <-]. apply single_discriminator_scalar; [set_solver|done|done].
  - destruct (getParentReference client path); cbn; [|discriminate].
    intros [= <-]. apply single_discriminator_scalar; [set_solver|done|done].
  - fold (mapM Variant.convertToFirestoreValue).
    destruct (mapM Variant.convertToFirestoreValue l) as [ws|e] eqn:Hws;
      cbn; [|discriminate].
    intros [= <-]. eapply sd_arrayValue.
    + by apply discriminator_count_obj1; set_solver.
    + apply lookup_singleton_eq.
    + apply lookup_singleton_eq.
    + apply mapM_Forall2 in Hws. intros w Hw.
      destruct (proj1 (list_elem_of_lookup ws w) Hw) as [i Hi].
      destruct (Forall2_lookup_r _ _ _ _ _ Hws Hi) as (x & Hx & Hxw).
      eapply IH; [|exact Hxw]. eapply list_elem_of_lookup_2; eauto.
  - destruct c.
    2,3: intros [= <-]; apply single_discriminator_scalar; [set_solver|done|done].
    destruct (obj_mapM Variant.convertToFirestoreValue o) as [fs|e] eqn:Hfs;
      cbn; [|discriminate].
    intros [= <-]. eapply sd_mapValue.
    + by apply discriminator_count_obj1; set_solver.
    + apply lookup_singleton_eq.
    + apply lookup_singleton_eq.
    + apply obj_mapM_related in Hfs. intros key w Hw. specialize (Hfs key).
      destruct (o !! key) as [x|] eqn:Hx; [|congruence].
      destruct Hfs as (w' & Hxw & Hw'). eapply IH; [exact Hx|]. congruence.
  - destruct c.
    2,3: intros [= <-]; apply single_discriminator_scalar; [set_solver|done|done].
    destruct (obj_mapM Variant.convertToFirestoreValue o) as [fs|e] eqn:Hfs;
      cbn; [|discriminate].
    intros [= <-]. eapply sd_mapValue.
    + by apply discriminator_count_obj1; set_solver.
    + apply lookup_singleton_eq.
    + apply lookup_singleton_eq.
    + apply obj_mapM_related in Hfs. intros key w Hw. specialize (Hfs key).
      destruct (o !! key) as [x|] eqn:Hx; [|congruence].
      destruct Hfs as (w' & Hxw & Hw'). eapply IH; [exact Hx|]. congruence.
Qed.

(** X16: the encoder of the second version encodes every plain object as a
    [mapValue] with the keys of the object, whatever its shape; on the object
    [{referenceValue: s}] the two versions differ, [converter.ts] passing it
    through as a reference. *)
Theorem Variant_plain_object_is_map :
  (∀ o w, Variant.convertToFirestoreValue (VObj Plain o) = Ok w →
     ∃ fs, w = obj1 "mapValue" (obj1 "fields" (VObj Plain fs)) ∧ dom fs = dom o)
  ∧ (∀ s, Variant.convertToFirestoreValue (obj1 "referenceValue" (VStr s))
          = Ok (obj1 "mapValue" (obj1 "fields" (VObj Plain
                  {[ "referenceValue" := obj1 "stringValue" (VStr s) ]})))
          ∧ convertToFirestoreValue (obj1 "referenceValue" (VStr s))
            = Ok (obj1 "referenceValue" (VStr s))).
Proof.
  split.
  - intros o w. cbn [Variant.convertToFirestoreValue].
    destruct (obj_mapM Variant.convertToFirestoreValue o) as [fs|e] eqn:Hfs;
      cbn; [|discriminate].
    intros [= <-]. exists fs. split; [reflexivity|].
    eapply fields_related_dom, obj_mapM_related, Hfs.
  - intros s. split; reflexivity.
Qed.

(** X17: the [fields] of the document that the document encoder of the
    second version returns have exactly the keys of the input, each with the
    encoding of the input's value, and a document is returned exactly when
    the encoder returns on every value of the input. *)
Theorem Variant_document_encode_key_set (data : gmap string value) :
  (∀ doc, Variant.convertToFirestoreDocument data = Ok doc →
     dom (doc_fields doc) = dom data
     ∧ ∀ key v, data !! key = Some v →
         ∃ w, Variant.convertToFirestoreValue v = Ok w
              ∧ doc_fields doc !! key = Some w)
  ∧ ((∃ doc, Variant.convertToFirestoreDocument data = Ok doc)
     ↔ ∀ key v, data !! key = Some v →
         ∃ w, Variant.convertToFirestoreValue v = Ok w).
Proof.
  unfold Variant.convertToFirestoreDocument. split.
  - intros doc.
    destruct (obj_mapM Variant.convertToFirestoreValue data) as [fs|e] eqn:Hfs;
      cbn [mbind result_bind]; [|discriminate].
    intros [= <-]. cbn [doc_fields]. apply obj_mapM_related in Hfs. split.
    + by eapply fields_related_dom.
    + intros key v Hv. specialize (Hfs key). by rewrite Hv in Hfs.
  - rewrite <- obj_mapM_returns_iff.
    destruct (obj_mapM Variant.convertToFirestoreValue data) as [fs|e];
      cbn [mbind result_bind].
    + split; intros _; by eexists.
    + split; intros [? [=]].
Qed.

End MoreProperties.

(** * The further properties at concrete inputs *)

Lemma canonical_sample_wire : canonical_wire (runtime := epoch_runtime) sample_wire.
Proof.
  apply cw_map.
  - apply (map_Forall_insert_2 (λ _ x, canonical_wire x)); [|apply map_Forall_singleton].
    + apply cw_integer. vm_compute. reflexivity.
    + apply cw_array. intros x. rewrite !elem_of_cons, elem_of_nil.
      intros [->|[->|[]]]; constructor.
  - intros [s Heq]. apply (f_equal (.!! "n")) in Heq.
    by rewrite lookup_insert_eq, lookup_singleton_ne in Heq.
Qed.

Lemma own_only_plain v : plain v → own_only v.
Proof.
  induction 1 as [s|x|b| |t Ht|l _ IH|o _ IH];
    try (by apply own_leaf); [by apply own_array | by apply own_object].
Qed.

Lemma encoder_returns_iff_encodable_witness :
  ∃ w, convertToFirestoreValue (runtime := epoch_runtime) sample_native = Ok w.
Proof.
  apply (proj2 (encoder_returns_iff_encodable (runtime := epoch_runtime) sample_native
                  (own_only_plain _ plain_sample_native))).
  apply encodable_plain, plain_sample_native.
Defined.

Lemma document_encode_returns_iff_encodable_witness :
  ∃ doc, convertToFirestoreDocument (runtime := epoch_runtime)
           {[ "at" := VDate (Some 0) ]} = Ok doc.
Proof.
  destruct (document_encode_returns_iff_encodable (runtime := epoch_runtime)
              {[ "at" := VDate (Some 0) ]}) as [_ Hok].
  - intros key v Hv. apply lookup_singleton_Some in Hv as [_ <-]. by apply own_leaf.
  - apply Hok. intros key v Hv. apply lookup_singleton_Some in Hv as [_ <-].
    constructor.
Defined.

Lemma encoder_output_in_wire_union_witness :
  ∃ w, convertToFirestoreValue (runtime := epoch_runtime) sample_native = Ok w
       ∧ FirestoreFieldValue w
       ∧ ∃ v', convertFromFirestoreValue (runtime := epoch_runtime) w = Ok v'.
Proof.
  destruct (encode_encodable (runtime := epoch_runtime) sample_native
              (encodable_plain _ plain_sample_native)) as [w Hw].
  exists w. split; [exact Hw|].
  exact (encoder_output_in_wire_union (runtime := epoch_runtime) sample_native w Hw).
Defined.

Lemma wire_roundtrip_canonical_witness :
  ∃ v, convertFromFirestoreValue (runtime := epoch_runtime) sample_wire = Ok v
       ∧ convertToFirestoreValue (runtime := epoch_runtime) v = Ok sample_wire.
Proof.
  apply (wire_roundtrip_canonical (runtime := epoch_runtime) sample_wire).
  - intros t _. apply epoch_parse_text.
  - apply canonical_sample_wire.
Defined.

Lemma integral_double_reencoded_as_integer_witness :
  convertFromFirestoreValue (runtime := epoch_runtime)
    (obj1 "doubleValue" (VNum 5%float)) = Ok (VNum 5%float)
  ∧ convertToFirestoreValue (runtime := epoch_runtime) (VNum 5%float)
    = Ok (obj1 "integerValue" (VNum 5%float)).
Proof.
  apply (integral_double_reencoded_as_integer (runtime := epoch_runtime) 5%float).
  vm_compute. reflexivity.
Defined.

Lemma malformed_timestamp_cannot_be_reencoded_witness :
  convertFromFirestoreValue (runtime := epoch_runtime)
    (obj1 "timestampValue" (VStr "soon")) = Ok (VDate None)
  ∧ convertToFirestoreValue (runtime := epoch_runtime) (VDate None)
    = Throw RangeError.
Proof.
  apply (malformed_timestamp_cannot_be_reencoded (runtime := epoch_runtime) "soon").
  vm_compute. reflexivity.
Defined.

Lemma document_roundtrip_witness :
  ∃ doc,
    convertToFirestoreDocument (runtime := epoch_runtime)
      {[ "id" := VStr "old"; "at" := VDate (Some 0) ]} = Ok doc
    ∧ convertFromFirestoreDocument (runtime := epoch_runtime)
        {| name := ".../col/doc1"; fields := Some (doc_fields doc);
           createTime := doc_createTime doc; updateTime := doc_updateTime doc |}
      = Ok {[ "id" := VStr "doc1"; "at" := VDate (Some 0) ]}.
Proof.
  destruct (document_roundtrip (runtime := epoch_runtime)
              {[ "id" := VStr "old"; "at" := VDate (Some 0) ]} ".../col/doc1")
    as (doc & Hdoc & Hback).
  - intros t _. apply epoch_parse_text.
  - apply (map_Forall_insert_2 (λ _ x, plain x)); [|apply map_Forall_singleton].
    + constructor.
    + apply plain_date. unfold time_in_range. lia.
  - exists doc. split; [exact Hdoc|]. rewrite Hback. reflexivity.
Defined.

Lemma document_decode_returns_iff_fields_decode_witness :
  ∃ out, convertFromFirestoreDocument (runtime := epoch_runtime) doc1_with_fields
         = Ok out.
Proof.
  apply (proj2 (document_decode_returns_iff_fields_decode
                  (runtime := epoch_runtime) doc1_with_fields _ eq_refl)).
  intros key w Hw. apply lookup_singleton_Some in Hw as [_ <-]. by eexists.
Defined.

Lemma Variant_roundtrip_plain_values_witness :
  ∃ w, Variant.convertToFirestoreValue (runtime := epoch_runtime) sample_native = Ok w
       ∧ Variant.convertFromFirestoreValue (runtime := epoch_runtime) w
         = Ok sample_native.
Proof.
  apply (Variant_roundtrip_plain_values (runtime := epoch_runtime) sample_native).
  - intros t _. apply epoch_parse_text.
  - apply plain_sample_native.
Defined.

Lemma Variant_encoder_single_discriminator_witness :
  single_discriminator
    (obj1 "mapValue" (obj1 "fields" (VObj Plain
       {[ "referenceValue" := obj1 "stringValue" (VStr "a/b") ]}))).
Proof.
  apply (Variant_encoder_single_discriminator (runtime := epoch_runtime)
           (obj1 "referenceValue" (VStr "a/b"))).
  reflexivity.
Defined.
